(** * Synthetic topology tables of [testss.ipynb]

    The notebook builds four numpy arrays ([atoms], [bonds], [angles],
    [dihedrals]), labels them, wraps [atoms] in a polars data frame and
    asks for the column-wise maximum and minimum of the coordinates.

    The embedding follows the notebook statement by statement:
    - a [float32] cell is an IEEE-754 binary32 value, a [spec_float] driven by
      the operations of the standard library at precision 24, [emax] 128;
      a [float64] is the same at precision 53, [emax] 1024;
    - an [int] cell is a 64-bit integer, a [Z] with the wrap-around written
      out;
    - a two-dimensional [ndarray] is its list of rows, together with the
      column count, updated through Python's slice rules;
    - a Python exception is the [Raise] branch of [result];
    - [np.random.rand] reads its 53-bit integers from an explicit stream. *)

From Stdlib Require Import ZArith Lia QArith SpecFloat.
From stdpp Require Import base list strings.

Local Open Scope Z_scope.

(** ** Exceptions *)

(** [Unmodelled] is no exception of Python: it is the result of a call that
    the model does not cover. *)
Inductive exn : Type :=
  | ValueError
  | IndexError
  | DuplicateError
  | ColumnNotFoundError (name : string)
  | Unmodelled.

Inductive result (A : Type) : Type :=
  | Ok (a : A)
  | Raise (e : exn).
Arguments Ok {A} a.
Arguments Raise {A} e.

#[global] Instance result_ret : MRet result := λ A, Ok.
#[global] Instance result_bind : MBind result :=
  λ A B f m, match m with Ok a => f a | Raise e => Raise e end.
#[global] Instance result_fmap : FMap result :=
  λ A B f m, match m with Ok a => Ok (f a) | Raise e => Raise e end.

(** ** Floating-point cells *)

Module F64.
Definition prec : Z := 53.
Definition emax : Z := 1024.
Definition one : spec_float := SFone prec emax.

(** Truncation towards zero, as the C cast from [double] to [int64_t]. *)
Definition trunc (x : spec_float) : Z :=
  match x with
  | S754_finite s m e =>
      cond_Zopp s (if 0 <=? e then Z.pos m * 2 ^ e else Z.pos m / 2 ^ (- e))
  | S754_zero _ => 0
  | _ => - 2 ^ 63
  end.
End F64.

Module F32.
Definition prec : Z := 24.
Definition emax : Z := 128.

Definition mul : spec_float → spec_float → spec_float := SFmul prec emax.
Definition sub : spec_float → spec_float → spec_float := SFsub prec emax.
Definition div : spec_float → spec_float → spec_float := SFdiv prec emax.
Definition leb : spec_float → spec_float → bool := SFleb.

(** An integer stored into a [float32] cell: rounded to nearest, ties to
    even. *)
Definition of_Z (n : Z) : spec_float := binary_normalize prec emax n 0 false.

(** [astype(np.float32)] of a [float64]. *)
Definition of_F64 (x : spec_float) : spec_float :=
  match x with
  | S754_finite s m e => binary_round prec emax s m e
  | _ => x
  end.
End F32.

Definition is_nan (x : spec_float) : bool :=
  match x with S754_nan => true | _ => false end.

Definition is_finite (x : spec_float) : bool :=
  match x with S754_zero _ | S754_finite _ _ _ => true | _ => false end.

(** The rational number a finite float stands for (0 for the others). *)
Definition F2Q (x : spec_float) : Q :=
  match x with
  | S754_finite s m e =>
      if 0 <=? e then inject_Z (cond_Zopp s (Z.pos m * 2 ^ e))
      else Qmake (cond_Zopp s (Z.pos m)) (Z.to_pos (2 ^ (- e)))
  | _ => 0%Q
  end.

(** ** 64-bit integers *)

Definition wrap64 (z : Z) : Z := (z + 2 ^ 63) mod 2 ^ 64 - 2 ^ 63.

(** ** Arrays *)

Record ndarray (A : Type) : Type := NdArray { ncols : nat; rows : list (list A) }.
Arguments NdArray {A} ncols rows.
Arguments ncols {A} _.
Arguments rows {A} _.

Definition len {A} (a : ndarray A) : Z := Z.of_nat (length (rows a)).

Definition shape {A} (a : ndarray A) : Z * Z := (len a, Z.of_nat (ncols a)).

(** [a[i, j]] for indices in range. *)
Definition cell {A} (a : ndarray A) (i j : nat) : option A :=
  rows a !! i ≫= (.!! j).

(** Elementwise operations, and [astype]. *)
Definition nd_map {A B} (f : A → B) (a : ndarray A) : ndarray B :=
  NdArray (ncols a) ((λ r : list A, f <$> r) <$> rows a).

(** [np.full([d0, d1], x)]; negative dimensions are refused. *)
Definition np_full {A} (d0 d1 : Z) (x : A) : result (ndarray A) :=
  if (d0 <? 0) || (d1 <? 0) then Raise ValueError
  else Ok (NdArray (Z.to_nat d1) (replicate (Z.to_nat d0) (replicate (Z.to_nat d1) x))).

Definition np_ones (d0 d1 : Z) : result (ndarray spec_float) := np_full d0 d1 F64.one.

(** [np.arange(n)] *)
Definition np_arange (n : Z) : list Z := Z.of_nat <$> seq 0 (Z.to_nat n).

(** One double of the generator: [k / 2^53] for the 53-bit integer [k] it
    assembles from two 32-bit outputs. *)
Definition random_sample (k : Z) : spec_float :=
  binary_normalize F64.prec F64.emax k (-53) false.

(** [np.random.rand(d0, d1)]: the array is filled in row-major order from the
    stream [rng] of 53-bit integers. *)
Definition np_random_rand (rng : nat → Z) (d0 d1 : Z) : result (ndarray spec_float) :=
  if (d0 <? 0) || (d1 <? 0) then Raise ValueError
  else
    let w := Z.to_nat d1 in
    Ok (NdArray w
          ((λ i, (λ j, random_sample (rng (i * w + j)%nat)) <$> seq 0 w)
             <$> seq 0 (Z.to_nat d0))).

(** *** Slices *)

(** [start:stop] with either bound possibly left out; the step is 1. *)
Record slice : Type := Slice { start : option Z; stop : option Z }.

Definition slice_all : slice := Slice None None.

(** A bound given by the caller, for a sequence of length [n]: a negative
    bound counts from the end, and everything is clipped to [0..n]. *)
Definition adjust_index (n i : Z) : Z :=
  if i <? 0 then Z.max (i + n) 0 else Z.min i n.

Definition slice_indices (s : slice) (n : Z) : Z * Z :=
  (from_option (adjust_index n) 0 (start s), from_option (adjust_index n) n (stop s)).

Definition slice_length (s : slice) (n : Z) : Z :=
  let '(lo, hi) := slice_indices s n in Z.max (hi - lo) 0.

(** Row [i] written with [f i] in column [j], where [f] gives a value. *)
Definition update_col {A} (f : nat → option A) (j : nat) (l : list (list A)) : list (list A) :=
  imap (λ i r, match f i with Some v => <[j:=v]> r | None => r end) l.

(** [a[s, j] = v] for a scalar [v]. *)
Definition setitem_scalar {A} (a : ndarray A) (s : slice) (j : nat) (v : A) : result (ndarray A) :=
  if decide (j < ncols a)%nat then
    let '(lo, hi) := slice_indices s (len a) in
    Ok (NdArray (ncols a)
          (update_col (λ i, if (lo <=? Z.of_nat i) && (Z.of_nat i <? hi) then Some v else None)
             j (rows a)))
  else Raise IndexError.

(** [a[s, j] = vals] for a one-dimensional array [vals]: its length is that
    of the slice, or 1 (broadcast). *)
Definition setitem_array {A} (a : ndarray A) (s : slice) (j : nat) (vals : list A) : result (ndarray A) :=
  if decide (j < ncols a)%nat then
    let '(lo, hi) := slice_indices s (len a) in
    let n := length vals in
    if (Z.of_nat n =? slice_length s (len a)) || (n =? 1)%nat then
      Ok (NdArray (ncols a)
            (update_col
               (λ i, if (lo <=? Z.of_nat i) && (Z.of_nat i <? hi)
                     then vals !! (if (n =? 1)%nat then 0%nat else Z.to_nat (Z.of_nat i - lo))
                     else None)
               j (rows a)))
    else Raise ValueError
  else Raise IndexError.

(** [a[:, j]] *)
Definition getitem_col {A} (a : ndarray A) (j : nat) : result (list A) :=
  if decide (j < ncols a)%nat then
    match mapM (.!! j) (rows a) with
    | Some c => Ok c
    | None => Raise IndexError
    end
  else Raise IndexError.

(** ** Data frames *)

Record DataFrame : Type := { columns : list (string * list spec_float) }.

Definition width (df : DataFrame) : Z := Z.of_nat (length (columns df)).

Definition height (df : DataFrame) : Z :=
  match columns df with
  | [] => 0
  | c :: _ => Z.of_nat (length c.2)
  end.

Definition df_shape (df : DataFrame) : Z * Z := (height df, width df).

Fixpoint get_column (cols : list (string * list spec_float)) (name : string)
  : option (list spec_float) :=
  match cols with
  | [] => None
  | c :: rest => if decide (c.1 = name) then Some c.2 else get_column rest name
  end.

(** The columns [a[:, j]] for [j] in [js]. *)
Fixpoint getitem_cols {A} (a : ndarray A) (js : list nat) : result (list (list A)) :=
  match js with
  | [] => Ok []
  | j :: js' => c ← getitem_col a j; cs ← getitem_cols a js'; Ok (c :: cs)
  end.

(** [pl.DataFrame(a, schema=names)] with as many names as [a] has columns,
    which is the call of the notebook: one column per name, in order, and
    polars refuses a name that occurs twice.  With another number of names
    polars infers an orientation or completes the names; such calls are not
    modelled. *)
Definition pl_DataFrame (a : ndarray spec_float) (schema : list string) : result DataFrame :=
  if decide (length schema = ncols a) then
    if decide (NoDup schema) then
      cols ← getitem_cols a (seq 0 (ncols a));
      Ok {| columns := zip schema cols |}
    else Raise DuplicateError
  else Raise Unmodelled.

(** ** The notebook *)

Record tables : Type := Tables {
  atoms : DataFrame;
  bonds : ndarray Z;
  angles : ndarray Z;
  dihedrals : ndarray Z
}.

(** [a.astype(int)]: every cell truncated towards zero, as a 64-bit integer.
    The notebook applies it to [np.ones], whose cells are all 1.0. *)
Definition astype_int (a : ndarray spec_float) : ndarray Z :=
  nd_map (λ x, wrap64 (F64.trunc x)) a.

Definition atoms_schema : list string :=
  ["atom-id"; "atom-type"; "mol-type"; "x-coor"; "y-coor"; "z-coor"]%string.

(** [np.arange(len(a)) + 1] *)
Definition ids {A} (a : ndarray A) : list Z := (λ i, wrap64 (i + 1)) <$> np_arange (len a).

(** The second cell of the notebook, with [size] left as its argument. *)
Definition generate (rng : nat → Z) (size : Z) : result tables :=
  atoms ← np_random_rand rng size 6;
  let atoms := nd_map F32.of_F64 atoms in
  let atoms := nd_map (λ x, F32.mul x (F32.of_Z 120)) atoms in
  let atoms := nd_map (λ x, F32.sub x (F32.of_Z 60)) atoms in
  let atoms := nd_map (λ x, F32.mul x x) atoms in
  let atoms := nd_map (λ x, F32.div x (F32.of_Z 10)) atoms in
  bonds ← astype_int <$> np_ones size 4;
  angles ← astype_int <$> np_ones size 5;
  dihedrals ← astype_int <$> np_ones size 6;
  atoms ← setitem_array atoms slice_all 0 (F32.of_Z <$> ids atoms);
  bonds ← setitem_array bonds slice_all 0 (ids bonds);
  angles ← setitem_array angles slice_all 0 (ids angles);
  atoms ← setitem_scalar atoms slice_all 1 (F32.of_Z 1);
  atoms ← setitem_scalar atoms (Slice None (Some 100)) 1 (F32.of_Z 2);
  atoms ← setitem_scalar atoms (Slice (Some (-100)) None) 1 (F32.of_Z 3);
  types ← getitem_col atoms 1;
  atoms ← setitem_array atoms slice_all 2 types;
  atoms ← pl_DataFrame atoms atoms_schema;
  Ok (Tables atoms bonds angles dihedrals).

Definition generate_atoms (rng : nat → Z) (count : Z) : result DataFrame :=
  atoms <$> generate rng count.

(** ** Column aggregates

    [atoms.select(names).max()] and [atoms.select(names).min()] are calls into
    polars; the notebook holds no code for them. *)

(** Modelled from the spec: the selection of columns by name, which the
    notebook leaves to polars. It keeps the named columns, in the order asked
    for, and fails with Column-Not-Found at the first name the table lacks. *)
Fixpoint select_columns (cols : list (string * list spec_float)) (names : list string)
  : result (list (string * list spec_float)) :=
  match names with
  | [] => Ok []
  | name :: names' =>
      match get_column cols name with
      | Some c => cs ← select_columns cols names'; Ok ((name, c) :: cs)
      | None => Raise (ColumnNotFoundError name)
      end
  end.

(** Modelled from the spec: polars' [DataFrame.select], missing from the
    sources. *)
Definition select (df : DataFrame) (names : list string) : result DataFrame :=
  cols ← select_columns (columns df) names; Ok {| columns := cols |}.

(** Modelled from the spec: the step of polars' [max], whose code is not in
    the sources: the larger of two numeric values; a NaN operand is ignored. *)
Definition f32_max (a b : spec_float) : spec_float :=
  if is_nan a then b else if is_nan b then a else if SFltb a b then b else a.

(** Modelled from the spec: the step of polars' [min], whose code is not in
    the sources: the smaller of two numeric values; a NaN operand is ignored. *)
Definition f32_min (a b : spec_float) : spec_float :=
  if is_nan a then b else if is_nan b then a else if SFltb b a then b else a.

(** Modelled from the spec: polars' aggregation of one column, whose code is
    not in the sources: one value, computed over all the rows; a column
    without rows gives a null. *)
Definition aggregate (op : spec_float → spec_float → spec_float) (c : list spec_float)
  : option spec_float :=
  match c with
  | [] => None
  | x :: xs => Some (foldl op x xs)
  end.

(** Modelled from the spec: [column_max(table, column_names)], the notebook's
    [select(...).max()] whose code is polars': one value per requested column,
    in the same order. *)
Definition column_max (df : DataFrame) (names : list string) : result (list (option spec_float)) :=
  sel ← select df names; Ok ((λ c, aggregate f32_max c.2) <$> columns sel).

(** Modelled from the spec: [column_min(table, column_names)], the notebook's
    [select(...).min()] whose code is polars'. *)
Definition column_min (df : DataFrame) (names : list string) : result (list (option spec_float)) :=
  sel ← select df names; Ok ((λ c, aggregate f32_min c.2) <$> columns sel).

(** The column names of the third and later cells of the notebook. *)
Definition coordinate_columns : list string := ["x-coor"; "y-coor"; "z-coor"]%string.

(** [maxes = atoms.select(['x-coor','y-coor','z-coor']).max().to_numpy().flatten()]:
    the values of the one row of [max()], one per column.  A column
    without values has no maximum, [None] here; [to_numpy] would store it as
    NaN. *)
Definition maxes (t : tables) : result (list (option spec_float)) :=
  column_max (atoms t) coordinate_columns.

(** [atoms.select(['x-coor','y-coor','z-coor']).min()] *)
Definition mins (t : tables) : result (list (option spec_float)) :=
  column_min (atoms t) coordinate_columns.

(** [x, y, z = l]: exactly three values, or a ValueError. *)
Definition unpack3 {A} (l : list A) : result (A * A * A) :=
  match l with
  | [x; y; z] => Ok (x, y, z)
  | _ => Raise ValueError
  end.

(** [df.to_numpy()]: the cells of the frame, row by row; a cell a column
    lacks would be a null, which a float array shows as NaN. *)
Definition to_numpy (df : DataFrame) : ndarray spec_float :=
  NdArray (length (columns df))
    ((λ i, (λ c : string * list spec_float, default S754_nan (c.2 !! i)) <$> columns df)
       <$> seq 0 (Z.to_nat (height df))).


(** * Definitions used by the proofs *)

(** The cell [x] holds the integer [n]. *)
Definition holds (x : spec_float) (n : Z) : Prop :=
  is_finite x = true ∧ (F2Q x == inject_Z n)%Q.

(** The array whose cell [(i, j)] is [g i j]: the closed form every array of
    the notebook is brought to. *)
Definition tabulate {A} (n w : nat) (g : nat → nat → A) : ndarray A :=
  NdArray w ((λ i, (λ j, g i j) <$> seq 0 w) <$> seq 0 n).

(** What the two arithmetic statements on [atoms] do to one cell. *)
Definition coordinate (v : spec_float) : spec_float :=
  let t := F32.sub (F32.mul v (F32.of_Z 120)) (F32.of_Z 60) in
  F32.div (F32.mul t t) (F32.of_Z 10).

(** The three writes to column 1, read in the order they happen: the last
    one that covers row [i] decides. *)
Definition atom_type (n i : nat) : spec_float :=
  if (Z.max (-100 + Z.of_nat n) 0 <=? Z.of_nat i) && (Z.of_nat i <? Z.of_nat n) then F32.of_Z 3
  else if (0 <=? Z.of_nat i) && (Z.of_nat i <? Z.min 100 (Z.of_nat n)) then F32.of_Z 2
  else F32.of_Z 1.

Definition atom_id (i : nat) : spec_float := F32.of_Z (wrap64 (Z.of_nat i + 1)).

Definition coordinate_at (rng : nat → Z) (j i : nat) : spec_float :=
  coordinate (F32.of_F64 (random_sample (rng (i * 6 + j)%nat))).

Definition placeholder_row (i j : nat) : Z :=
  if decide (j = 0%nat) then wrap64 (Z.of_nat i + 1) else 1.

(** Some bit was lost by the shifts recorded in [mrs]. *)
Definition inexact (mrs : shr_record) : bool := shr_r mrs || shr_s mrs.

Definition is_exact (l : location) : bool :=
  match l with loc_Exact => true | _ => false end.

(** How far rounding shifts the mantissa [m] at exponent [e]. *)
Definition shift_amount (prec emax m e : Z) : Z :=
  Z.max (fexp prec emax (Zdigits2 m + e) - e) 0.

(** A float of sign [s] whose magnitude is at most the integer [B]. *)
Definition bounded_by (B : Z) (s : bool) (f : spec_float) : Prop :=
  match f with
  | S754_zero s' => s' = s
  | S754_finite s' m e => s' = s ∧ e <= 0 ∧ Z.pos m <= B * 2 ^ (- e)
  | _ => False
  end.

(** The comparison of floats is the lexicographic order of these keys. *)
Definition key (x : spec_float) : Z * Z * Z :=
  match x with
  | S754_infinity true => (-2, 0, 0)
  | S754_finite true m e => (-1, - e, - Z.pos m)
  | S754_zero _ | S754_nan => (0, 0, 0)
  | S754_finite false m e => (1, e, Z.pos m)
  | S754_infinity false => (2, 0, 0)
  end.

Definition lex_le (a b : Z * Z * Z) : Prop :=
  a.1.1 < b.1.1 ∨ (a.1.1 = b.1.1 ∧ (a.1.2 < b.1.2 ∨ (a.1.2 = b.1.2 ∧ a.2 <= b.2))).

(** Every row has as many cells as the array has columns. *)
Definition well_formed {A} (a : ndarray A) : Prop :=
  Forall (λ r, length r = ncols a) (rows a).

(** A small array to run the assignments on. *)
Definition sample_array : ndarray spec_float :=
  NdArray 2 [[F32.of_Z 1; F32.of_Z 2]; [F32.of_Z 3; F32.of_Z 4]; [F32.of_Z 5; F32.of_Z 6]].

(** A small frame to run the aggregates on. *)
Definition sample_frame : DataFrame :=
  {| columns := [("x-coor"%string, [F32.of_Z 3; F32.of_Z 1; F32.of_Z 2]);
                 ("y-coor"%string, [F32.of_Z 5; F32.of_Z 8; F32.of_Z 7])] |}.

(** A frame whose only column holds a NaN between two numbers. *)
Definition nan_frame : DataFrame :=
  {| columns := [("x-coor"%string, [F32.of_Z 1; S754_nan; F32.of_Z 0])] |}.

(** The stream that always draws 0, and one that runs through a few draws. *)
Definition rng0 : nat → Z := λ _, 0.
Definition rng1 : nat → Z := λ n, (Z.of_nat n * 2862933555777941757 + 3037000493) mod 2 ^ 53.

Lemma bind_Ok {A B} (a : A) (f : A → result B) : (Ok a ≫= f) = f a.
Proof. done. Qed.
Lemma fmap_Ok {A B} (a : A) (f : A → B) : (f <$> Ok a) = Ok (f a).
Proof. done. Qed.

Ltac step := cbv beta zeta; rewrite ?fmap_Ok, ?bind_Ok; cbv beta zeta.

Ltac split_cmp :=
  repeat match goal with
    | |- context [Z.leb ?a ?b] => destruct (Z.leb_spec a b)
    | |- context [Z.ltb ?a ?b] => destruct (Z.ltb_spec a b)
    end.

(** * The model at work *)

Example slice_first_100_of_50 : slice_indices (Slice None (Some 100)) 50 = (0, 50).
Proof. reflexivity. Qed.

Example slice_last_100_of_50 : slice_indices (Slice (Some (-100)) None) 50 = (0, 50).
Proof. reflexivity. Qed.

Example slice_last_100_of_1200 :
  slice_indices (Slice (Some (-100)) None) 1200 = (1100, 1200).
Proof. reflexivity. Qed.

Example placeholders_of_3 :
  generate rng1 3 ≫= (λ t, Ok (rows (bonds t), rows (angles t), rows (dihedrals t))) =
  Ok ([[1; 1; 1; 1]; [2; 1; 1; 1]; [3; 1; 1; 1]],
      [[1; 1; 1; 1; 1]; [2; 1; 1; 1; 1]; [3; 1; 1; 1; 1]],
      [[1; 1; 1; 1; 1; 1]; [1; 1; 1; 1; 1; 1]; [1; 1; 1; 1; 1; 1]]).
Proof. vm_compute. reflexivity. Qed.

Example negative_size : generate rng1 (-1) = Raise ValueError.
Proof. reflexivity. Qed.

Example notebook_shape : df_shape <$> generate_atoms rng1 1200 = Ok (1200, 6).
Proof. vm_compute. reflexivity. Qed.

Example float32_of_integers :
  F32.of_Z 16777216 = S754_finite false 8388608 1 ∧
  F32.of_Z 16777217 = S754_finite false 8388608 1 ∧
  F32.of_Z 16777218 = S754_finite false 8388609 1.
Proof. by vm_compute. Qed.

(** Known binary32 results: 1/10, the cast of the double 0.1, and 1 - 1/3. *)
Example float32_arithmetic :
  F32.div (F32.of_Z 1) (F32.of_Z 10) = S754_finite false 13421773 (-27) ∧
  F32.of_F64 (S754_finite false 7205759403792794 (-56)) = S754_finite false 13421773 (-27) ∧
  F32.sub (F32.of_Z 1) (F32.div (F32.of_Z 1) (F32.of_Z 3)) = S754_finite false 11184810 (-24).
Proof. by vm_compute. Qed.

Example coordinate_of_draws :
  coordinate (F32.of_F64 (random_sample 0)) = F32.of_Z 360 ∧
  coordinate (F32.of_F64 (random_sample (2 ^ 52))) = S754_zero false ∧
  coordinate (F32.of_F64 (random_sample (2 ^ 53 - 1))) = F32.of_Z 360.
Proof. by vm_compute. Qed.

(** * Facts about arrays *)

Section ArrayFacts.
Context {A : Type}.
Implicit Types (g : nat → nat → A) (n w i j : nat).

Lemma tabulate_ext n w g g' :
  (∀ i j, (i < n)%nat → (j < w)%nat → g i j = g' i j) →
  tabulate n w g = tabulate n w g'.
Proof.
  intros Hg. unfold tabulate. f_equal.
  apply list_eq; intros i. rewrite !list_lookup_fmap.
  destruct (seq 0 n !! i) as [i'|] eqn:Hi; [|done]. simpl. f_equal.
  apply lookup_seq in Hi as [-> Hi].
  apply list_eq; intros j. rewrite !list_lookup_fmap.
  destruct (seq 0 w !! j) as [j'|] eqn:Hj; [|done]. simpl. f_equal.
  apply lookup_seq in Hj as [-> Hj]. by apply Hg.
Qed.

Lemma len_tabulate n w g : len (tabulate n w g) = Z.of_nat n.
Proof. unfold len, tabulate. simpl. by rewrite length_fmap, length_seq. Qed.

Lemma shape_tabulate n w g : shape (tabulate n w g) = (Z.of_nat n, Z.of_nat w).
Proof. unfold shape. by rewrite len_tabulate. Qed.

Lemma cell_tabulate n w g i j :
  (i < n)%nat → (j < w)%nat → cell (tabulate n w g) i j = Some (g i j).
Proof.
  intros Hi Hj. unfold cell, tabulate. simpl.
  rewrite list_lookup_fmap, (lookup_seq_lt 0 n i Hi). simpl.
  by rewrite list_lookup_fmap, (lookup_seq_lt 0 w j Hj).
Qed.

Lemma np_full_tabulate d0 d1 (x : A) :
  0 <= d0 → 0 <= d1 →
  np_full d0 d1 x = Ok (tabulate (Z.to_nat d0) (Z.to_nat d1) (λ _ _, x)).
Proof.
  intros H0 H1. unfold np_full, tabulate.
  destruct (Z.ltb_spec d0 0); [lia|]. destruct (Z.ltb_spec d1 0); [lia|]. simpl.
  do 2 f_equal. apply list_eq; intros i.
  rewrite list_lookup_fmap.
  destruct (decide (i < Z.to_nat d0)%nat) as [Hi|Hi].
  - rewrite lookup_replicate_2 by done. rewrite (lookup_seq_lt 0 _ i Hi). simpl. f_equal.
    apply list_eq; intros j. rewrite list_lookup_fmap.
    destruct (decide (j < Z.to_nat d1)%nat) as [Hj|Hj].
    + rewrite lookup_replicate_2 by done. by rewrite (lookup_seq_lt 0 _ j Hj).
    + rewrite (proj1 (lookup_replicate_None _ _ _)) by lia. by rewrite lookup_seq_ge by lia.
  - rewrite (proj1 (lookup_replicate_None _ _ _)) by lia. by rewrite lookup_seq_ge by lia.
Qed.

Lemma insert_tabulated_row w (h : nat → A) j v :
  <[j:=v]> (h <$> seq 0 w) = (λ j', if decide (j' = j) then v else h j') <$> seq 0 w.
Proof.
  apply list_eq; intros k. rewrite list_lookup_insert, !list_lookup_fmap.
  rewrite length_fmap, length_seq.
  destruct (decide (k < w)%nat) as [Hk|Hk].
  - rewrite (lookup_seq_lt 0 w k Hk). simpl.
    repeat case_decide; try done; exfalso; lia.
  - rewrite lookup_seq_ge by lia. simpl. case_decide; [lia|done].
Qed.

Lemma update_col_tabulate n w g (f : nat → option A) j :
  update_col f j (rows (tabulate n w g)) =
  rows (tabulate n w (λ i j', if decide (j' = j) then default (g i j') (f i) else g i j')).
Proof.
  unfold update_col, tabulate. simpl. apply list_eq; intros i.
  rewrite list_lookup_imap, !list_lookup_fmap.
  destruct (seq 0 n !! i) as [i'|] eqn:Hi; [|done]. simpl. f_equal.
  apply lookup_seq in Hi as [-> Hi]. simpl.
  destruct (f i) as [v|]; simpl.
  - by rewrite insert_tabulated_row.
  - apply list_fmap_ext. intros _ j' _. by case_decide; subst.
Qed.

Lemma setitem_scalar_tabulate n w g s j v :
  (j < w)%nat →
  setitem_scalar (tabulate n w g) s j v =
  Ok (tabulate n w (λ i j',
        if decide (j' = j) then
          if ((slice_indices s (Z.of_nat n)).1 <=? Z.of_nat i)
             && (Z.of_nat i <? (slice_indices s (Z.of_nat n)).2)
          then v else g i j'
        else g i j')).
Proof.
  intros Hj. unfold setitem_scalar. simpl. rewrite decide_True by done.
  rewrite len_tabulate. destruct (slice_indices s (Z.of_nat n)) as [lo hi]. simpl.
  f_equal. unfold tabulate at 1. simpl. rewrite (update_col_tabulate n w g).
  unfold tabulate at 1. simpl. apply tabulate_ext. intros i j' _ _.
  case_decide; [|done]. by destruct (_ && _).
Qed.

Lemma setitem_array_all_tabulate n w g j (vals : nat → A) :
  (j < w)%nat →
  setitem_array (tabulate n w g) slice_all j (vals <$> seq 0 n) =
  Ok (tabulate n w (λ i j', if decide (j' = j) then vals i else g i j')).
Proof.
  intros Hj. unfold setitem_array. simpl. rewrite decide_True by done.
  unfold slice_length. rewrite len_tabulate. simpl.
  rewrite length_fmap, length_seq.
  replace (Z.of_nat n =? Z.max (Z.of_nat n - 0) 0) with true
    by (symmetry; apply Z.eqb_eq; lia).
  simpl. f_equal. unfold tabulate at 1. simpl. rewrite (update_col_tabulate n w g).
  unfold tabulate at 1. simpl. apply tabulate_ext. intros i j' Hi _.
  case_decide; [|done].
  destruct (Z.leb_spec 0 (Z.of_nat i)); [|lia].
  destruct (Z.ltb_spec (Z.of_nat i) (Z.of_nat n)); [|lia]. simpl.
  destruct (Nat.eqb_spec n 1) as [->|_].
  - assert (i = 0)%nat as -> by lia. done.
  - rewrite list_lookup_fmap.
    replace (Z.to_nat (Z.of_nat i - 0)) with i by lia.
    by rewrite (lookup_seq_lt 0 n i Hi).
Qed.

Lemma getitem_col_tabulate n w g j :
  (j < w)%nat →
  getitem_col (tabulate n w g) j = Ok ((λ i, g i j) <$> seq 0 n).
Proof.
  intros Hj.
  assert (mapM (.!! j) (rows (tabulate n w g)) = Some ((λ i, g i j) <$> seq 0 n)) as Hm.
  { apply mapM_Some. unfold tabulate. simpl.
    apply Forall2_fmap, Forall_Forall2_diag, Forall_forall. intros i _.
    rewrite list_lookup_fmap. by rewrite (lookup_seq_lt 0 w j Hj). }
  unfold getitem_col. rewrite Hm. simpl. by rewrite decide_True.
Qed.

Lemma getitem_cols_tabulate n w g js :
  Forall (λ j, (j < w)%nat) js →
  getitem_cols (tabulate n w g) js = Ok ((λ j, (λ i, g i j) <$> seq 0 n) <$> js).
Proof.
  induction 1 as [|j js Hj _ IH]; [done|].
  simpl. rewrite getitem_col_tabulate by done. simpl. by rewrite IH.
Qed.
End ArrayFacts.

Lemma nd_map_tabulate {A B} (f : A → B) n w g :
  nd_map f (tabulate n w g) = tabulate n w (λ i j, f (g i j)).
Proof.
  unfold nd_map, tabulate. simpl. f_equal.
  rewrite <- list_fmap_compose. apply list_fmap_ext. intros _ i _. simpl.
  by rewrite <- list_fmap_compose.
Qed.

Lemma np_random_rand_tabulate rng d0 d1 :
  0 <= d0 → 0 <= d1 →
  np_random_rand rng d0 d1 =
  Ok (tabulate (Z.to_nat d0) (Z.to_nat d1)
        (λ i j, random_sample (rng (i * Z.to_nat d1 + j)%nat))).
Proof.
  intros H0 H1. unfold np_random_rand.
  destruct (Z.ltb_spec d0 0); [lia|]. by destruct (Z.ltb_spec d1 0); [lia|].
Qed.

(** * The closed form of the notebook's tables *)

Lemma ids_tabulate {A} n w (g : nat → nat → A) :
  ids (tabulate n w g) = (λ i, wrap64 (Z.of_nat i + 1)) <$> seq 0 n.
Proof.
  unfold ids, np_arange. rewrite len_tabulate, Nat2Z.id.
  by rewrite <- list_fmap_compose.
Qed.

Lemma NoDup_atoms_schema : NoDup atoms_schema.
Proof. apply (bool_decide_unpack _). by vm_compute. Qed.

Lemma columns_cons_ext {A B} (name : string) (f g : A → B) (l : list A) rest rest' :
  (∀ i x, l !! i = Some x → f x = g x) → rest = rest' →
  (name, f <$> l) :: rest = (name, g <$> l) :: rest'.
Proof. intros Hfg ->. f_equal. f_equal. by apply list_fmap_ext. Qed.

Lemma generate_closed rng size :
  0 <= size →
  let n := Z.to_nat size in
  generate rng size = Ok (Tables
    {| columns :=
        [("atom-id", atom_id <$> seq 0 n);
         ("atom-type", atom_type n <$> seq 0 n);
         ("mol-type", atom_type n <$> seq 0 n);
         ("x-coor", coordinate_at rng 3 <$> seq 0 n);
         ("y-coor", coordinate_at rng 4 <$> seq 0 n);
         ("z-coor", coordinate_at rng 5 <$> seq 0 n)]%string |}
    (tabulate n 4 placeholder_row)
    (tabulate n 5 placeholder_row)
    (tabulate n 6 (λ _ _, 1))).
Proof.
  intros Hs n. unfold generate, np_ones, astype_int.
  rewrite np_random_rand_tabulate by lia. rewrite !np_full_tabulate by lia. fold n.
  change (Z.to_nat 6) with 6%nat. change (Z.to_nat 5) with 5%nat. change (Z.to_nat 4) with 4%nat.
  step. rewrite !nd_map_tabulate. step.
  rewrite !ids_tabulate.
  rewrite <- list_fmap_compose.
  rewrite setitem_array_all_tabulate by lia. step.
  rewrite setitem_array_all_tabulate by lia. step.
  rewrite setitem_array_all_tabulate by lia. step.
  rewrite setitem_scalar_tabulate by lia. step.
  rewrite setitem_scalar_tabulate by lia. step.
  rewrite setitem_scalar_tabulate by lia. step.
  rewrite getitem_col_tabulate by lia. step.
  rewrite setitem_array_all_tabulate by lia. step.
  unfold pl_DataFrame. change (length atoms_schema) with 6%nat.
  change (ncols (tabulate n 6 ?g)) with 6%nat.
  rewrite decide_True by done.
  rewrite (decide_True (P := NoDup atoms_schema)) by apply NoDup_atoms_schema.
  rewrite getitem_cols_tabulate by (repeat constructor; lia). step.
  do 3 f_equal.
  unfold atoms_schema. change (seq 0 6) with [0; 1; 2; 3; 4; 5]%nat.
  rewrite !fmap_cons, fmap_nil. cbn [zip_with]. cbv beta.
  repeat (apply columns_cons_ext; [intros k i Hi|]); try done;
      apply lookup_seq in Hi as [-> Hi]; cbn [Nat.add] in *;
      repeat (case_decide; try (exfalso; lia));
      cbn [slice_indices start stop slice_all from_option adjust_index fst snd Z.ltb Z.compare Z.add];
      try done;
      unfold atom_type; split_cmp; cbn [andb]; try done; exfalso; lia.
Qed.

(** * Rounding *)

Lemma digits2_pos_size p : digits2_pos p = Pos.size p.
Proof. induction p; simpl; congruence. Qed.

Lemma Zdigits2_bounds m :
  0 < m → 2 ^ (Zdigits2 m - 1) <= m < 2 ^ Zdigits2 m.
Proof.
  destruct m as [|p|p]; try lia. intros _. simpl Zdigits2.
  rewrite digits2_pos_size.
  pose proof (Pos.size_gt p) as Hgt. pose proof (Pos.size_le p) as Hle.
  apply Pos2Z.pos_lt_pos in Hgt. apply Pos2Z.pos_le_pos in Hle.
  rewrite Pos2Z.inj_pow in Hgt, Hle.
  replace (Z.pos (Pos.size p)) with (Z.succ (Z.pos (Pos.size p) - 1)) in Hle by lia.
  rewrite Z.pow_succ_r in Hle by lia. lia.
Qed.

Lemma Zdigits2_nonneg m : 0 <= Zdigits2 m.
Proof. destruct m; simpl; lia. Qed.

Lemma Zdigits2_le m k : 0 <= m < 2 ^ k → 0 <= k → Zdigits2 m <= k.
Proof.
  intros [Hm Hk] Hk0. destruct (Z.eq_dec m 0) as [->|Hne]; [done|].
  destruct (Zdigits2_bounds m) as [Hlo _]; [lia|].
  assert (2 ^ (Zdigits2 m - 1) < 2 ^ k) as Hlt by lia.
  apply Z.pow_lt_mono_r_iff in Hlt; lia.
Qed.

Lemma Zdigits2_ge m k : 2 ^ k <= m → 0 <= k → k < Zdigits2 m.
Proof.
  intros Hm Hk. assert (0 < m) as Hpos by (pose proof (Z.pow_pos_nonneg 2 k); lia).
  destruct (Zdigits2_bounds m Hpos) as [_ Hhi].
  assert (2 ^ k < 2 ^ Zdigits2 m) as Hlt by lia.
  apply Z.pow_lt_mono_r_iff in Hlt; [lia|lia|apply Zdigits2_nonneg].
Qed.

Lemma iter_pos_nat {A} (f : A → A) p x :
  SpecFloat.iter_pos f p x = Nat.iter (Pos.to_nat p) f x.
Proof.
  revert x. induction p as [p IH|p IH|]; intros x; cbn [SpecFloat.iter_pos].
  - rewrite !IH, Pos2Nat.inj_xI, <- Nat.iter_succ_r.
    replace (S (2 * Pos.to_nat p)) with (Pos.to_nat p + S (Pos.to_nat p))%nat by lia.
    by rewrite Nat.iter_add.
  - rewrite !IH, Pos2Nat.inj_xO.
    replace (2 * Pos.to_nat p)%nat with (Pos.to_nat p + Pos.to_nat p)%nat by lia.
    by rewrite Nat.iter_add.
  - done.
Qed.

Lemma shr_1_spec mrs :
  0 <= shr_m mrs →
  shr_m (shr_1 mrs) = shr_m mrs / 2 ∧
  inexact (shr_1 mrs) = Z.odd (shr_m mrs) || inexact mrs.
Proof.
  destruct mrs as [m r s]. simpl. intros Hm. unfold inexact.
  destruct m as [|[p|p|]|p]; simpl; try lia.
  - done.
  - split; [|done]. rewrite Pos2Z.inj_xI.
    apply (Z.div_unique _ _ _ 1); lia.
  - split; [|done]. rewrite Pos2Z.inj_xO.
    apply (Z.div_unique _ _ _ 0); lia.
  - done.
Qed.

Lemma shr_iter_spec n mrs :
  0 <= shr_m mrs →
  shr_m (Nat.iter n shr_1 mrs) = shr_m mrs / 2 ^ Z.of_nat n ∧
  inexact (Nat.iter n shr_1 mrs) =
    inexact mrs || negb (shr_m mrs mod 2 ^ Z.of_nat n =? 0).
Proof.
  intros Hm. induction n as [|n [IHm IHi]].
  - simpl. rewrite Z.div_1_r, Z.mod_1_r. simpl. by rewrite orb_false_r.
  - rewrite Nat2Z.inj_succ, Z.pow_succ_r by lia. simpl Nat.iter.
    assert (0 < 2 ^ Z.of_nat n) as Hpow by (apply Z.pow_pos_nonneg; lia).
    destruct (shr_1_spec (Nat.iter n shr_1 mrs)) as [Hm1 Hi1].
    { rewrite IHm. apply Z.div_pos; lia. }
    rewrite Hm1, Hi1, IHm, IHi. split.
    + rewrite Z.div_div by lia. f_equal. lia.
    + set (m := shr_m mrs) in *. set (q := 2 ^ Z.of_nat n) in *.
      pose proof (Z.div_mod m q ltac:(lia)) as Hdm.
      pose proof (Z.mod_pos_bound m q ltac:(lia)) as Hmb.
      pose proof (Z.div_mod (m / q) 2 ltac:(lia)) as Hdm2.
      pose proof (Z.mod_pos_bound (m / q) 2 ltac:(lia)) as Hmb2.
      assert (m mod (2 * q) = m mod q + q * ((m / q) mod 2)) as Hmod.
      { symmetry. apply (Z.mod_unique _ _ ((m / q) / 2)); [nia|nia]. }
      rewrite Hmod. rewrite <- Z.negb_even, Zeven_mod.
      destruct (inexact mrs); simpl; [by rewrite orb_true_r|].
      destruct (Z.eqb_spec (m mod q) 0) as [E1|E1];
        destruct (Z.eqb_spec ((m / q) mod 2) 0) as [E2|E2];
        destruct (Z.eqb_spec (m mod q + q * ((m / q) mod 2)) 0) as [E3|E3];
        simpl; try done; exfalso; nia.
Qed.

Lemma inexact_of_loc m l : inexact (shr_record_of_loc m l) = negb (is_exact l).
Proof. by destruct l as [|[]]. Qed.

Lemma shr_m_of_loc m l : shr_m (shr_record_of_loc m l) = m.
Proof. by destruct l as [|[]]. Qed.

Lemma shr_spec mrs e n :
  0 <= shr_m mrs →
  shr_m (shr mrs e n).1 = shr_m mrs / 2 ^ Z.max n 0 ∧
  (shr mrs e n).2 = e + Z.max n 0 ∧
  inexact (shr mrs e n).1 = inexact mrs || negb (shr_m mrs mod 2 ^ Z.max n 0 =? 0).
Proof.
  intros Hm. destruct n as [|p|p]; simpl.
  - rewrite Z.div_1_r, Z.mod_1_r, Z.add_0_r. simpl. by rewrite orb_false_r.
  - rewrite iter_pos_nat. destruct (shr_iter_spec (Pos.to_nat p) mrs Hm) as [H1 H2].
    rewrite positive_nat_Z in H1, H2. done.
  - rewrite Z.div_1_r, Z.mod_1_r, Z.add_0_r. simpl. by rewrite orb_false_r.
Qed.

Lemma rne_shr mrs :
  shr_m mrs <= round_nearest_even (shr_m mrs) (loc_of_shr_record mrs)
            <= shr_m mrs + (if inexact mrs then 1 else 0).
Proof. destruct mrs as [m [] []]; simpl; try destruct (Z.even m); lia. Qed.

Lemma pos_iter_xO m d : Z.pos (Pos.iter xO m d) = Z.pos m * 2 ^ Z.pos d.
Proof.
  induction d as [|d IH] using Pos.peano_ind.
  - simpl. lia.
  - rewrite Pos.iter_succ, Pos2Z.inj_xO, IH, Pos2Z.inj_succ, Z.pow_succ_r by lia. lia.
Qed.

Lemma shl_align_spec mx ex ez :
  ez <= ex → Z.pos (shl_align mx ex ez).1 = Z.pos mx * 2 ^ (ex - ez).
Proof.
  intros Hle. unfold shl_align. destruct (ez - ex) as [|d|d] eqn:E; simpl.
  - replace (ex - ez) with 0 by lia. lia.
  - lia.
  - rewrite pos_iter_xO. f_equal. f_equal. lia.
Qed.

Section RoundingBounds.
Variables prec emax : Z.
Hypothesis Hprec : 0 < prec.
Hypothesis Hemax : prec < emax.

Local Abbreviation shift_of := (shift_amount prec emax).

Lemma fexp_nonpos x : x <= prec → fexp prec emax x <= 0.
Proof. unfold fexp, emin. lia. Qed.

Lemma shr_fexp_spec m e l :
  0 <= m →
  shr_m (shr_fexp prec emax m e l).1 = m / 2 ^ shift_of m e ∧
  (shr_fexp prec emax m e l).2 = e + shift_of m e ∧
  inexact (shr_fexp prec emax m e l).1 =
    negb (is_exact l) || negb (m mod 2 ^ shift_of m e =? 0).
Proof.
  intros Hm. unfold shr_fexp, shift_of.
  pose proof (shr_spec (shr_record_of_loc m l) e
                (fexp prec emax (Zdigits2 m + e) - e)) as Hs.
  rewrite shr_m_of_loc, inexact_of_loc in Hs. by apply Hs.
Qed.

Lemma shift_of_nonneg m e : 0 <= shift_of m e.
Proof. unfold shift_of. lia. Qed.

Lemma pow2_split a b : 0 <= a → 0 <= b → 2 ^ (a + b) = 2 ^ a * 2 ^ b.
Proof. intros. by rewrite Z.pow_add_r. Qed.

Lemma shifted_exp_nonpos m e B :
  0 <= m → e <= 0 → 0 < B < 2 ^ prec → m <= B * 2 ^ (- e) →
  e + shift_of m e <= 0.
Proof.
  intros Hm He HB Hle. unfold shift_of.
  destruct (Z.max_spec (fexp prec emax (Zdigits2 m + e) - e) 0) as [[_ ->]|[_ ->]]; [lia|].
  assert (Zdigits2 m <= prec - e) as Hd.
  { apply Zdigits2_le; [|lia]. split; [done|].
    replace (prec - e) with (prec + - e) by lia.
    rewrite (pow2_split prec (- e)) by lia.
    assert (0 < 2 ^ (- e)) by (apply Z.pow_pos_nonneg; lia). nia. }
  pose proof (fexp_nonpos (Zdigits2 m + e)). lia.
Qed.

(** Rounding never crosses an integer bound below [2^prec]. *)
Lemma binary_round_aux_bound sx mx ex lx B :
  0 <= mx → ex <= 0 → 0 < B < 2 ^ prec →
  mx + (if is_exact lx then 0 else 1) <= B * 2 ^ (- ex) →
  bounded_by B sx (binary_round_aux prec emax sx mx ex lx).
Proof.
  intros Hmx Hex HB Hub. unfold binary_round_aux.
  destruct (shr_fexp_spec mx ex lx Hmx) as (Hm1 & He1 & Hi1).
  destruct (shr_fexp prec emax mx ex lx) as [mrs1 e1]. simpl in Hm1, He1, Hi1.
  set (k1 := shift_of mx ex) in *.
  assert (0 <= k1) as Hk1 by apply shift_of_nonneg.
  assert (0 < 2 ^ k1) as Hp1 by (apply Z.pow_pos_nonneg; lia).
  assert (e1 <= 0) as He1'.
  { subst e1. apply (shifted_exp_nonpos mx ex B); try done.
    destruct (is_exact lx); lia. }
  assert (0 < 2 ^ (- e1)) as Hpe1 by (apply Z.pow_pos_nonneg; lia).
  assert (2 ^ (- ex) = 2 ^ (- e1) * 2 ^ k1) as Hsplit.
  { rewrite <- pow2_split by lia. f_equal. lia. }
  pose proof (rne_shr mrs1) as Hrne.
  set (m2 := round_nearest_even (shr_m mrs1) (loc_of_shr_record mrs1)) in *.
  assert (0 <= shr_m mrs1) as Hm1pos by (rewrite Hm1; apply Z.div_pos; lia).
  assert (0 <= m2 <= B * 2 ^ (- e1)) as Hm2.
  { split; [lia|]. rewrite Hsplit in Hub.
    pose proof (Z.div_mod mx (2 ^ k1) ltac:(lia)) as Hdm.
    pose proof (Z.mod_pos_bound mx (2 ^ k1) ltac:(lia)) as Hmb.
    rewrite Hm1 in Hrne. rewrite Hi1 in Hrne.
    destruct (is_exact lx); simpl in Hrne, Hub.
    - destruct (Z.eqb_spec (mx mod 2 ^ k1) 0) as [E|E]; simpl in Hrne; nia.
    - nia. }
  destruct (shr_fexp_spec m2 e1 loc_Exact ltac:(lia)) as (Hm3 & He3 & _).
  destruct (shr_fexp prec emax m2 e1 loc_Exact) as [mrs2 e2]. simpl in Hm3, He3.
  set (k2 := shift_of m2 e1) in *.
  assert (0 <= k2) as Hk2 by apply shift_of_nonneg.
  assert (0 < 2 ^ k2) as Hp2 by (apply Z.pow_pos_nonneg; lia).
  assert (e2 <= 0) as He2'.
  { subst e2. by apply (shifted_exp_nonpos m2 e1 B); try lia. }
  assert (2 ^ (- e1) = 2 ^ (- e2) * 2 ^ k2) as Hsplit2.
  { rewrite <- pow2_split by lia. f_equal. lia. }
  assert (0 < 2 ^ (- e2)) as Hpe2 by (apply Z.pow_pos_nonneg; lia).
  assert (0 <= shr_m mrs2 <= B * 2 ^ (- e2)) as Hm3'.
  { rewrite Hm3. split; [apply Z.div_pos; lia|].
    apply Z.div_le_upper_bound; [lia|]. nia. }
  destruct (shr_m mrs2) as [|m3|m3]; simpl.
  - done.
  - destruct (Z.leb_spec e2 (emax - prec)); [|lia]. simpl. split; [done|lia].
  - lia.
Qed.

Lemma binary_round_bound sx mx ex B :
  ex <= 0 → 0 < B < 2 ^ prec → Z.pos mx <= B * 2 ^ (- ex) →
  bounded_by B sx (binary_round prec emax sx mx ex).
Proof.
  intros Hex HB Hle. unfold binary_round.
  set (e' := fexp prec emax (Z.pos (digits2_pos mx) + ex)).
  destruct (Z.le_gt_cases ex e') as [Hge|Hlt].
  - assert (shl_align mx ex e' = (mx, ex)) as ->.
    { unfold shl_align. destruct (e' - ex) eqn:E; try done. lia. }
    apply binary_round_aux_bound; simpl; try done; lia.
  - pose proof (shl_align_spec mx ex e' ltac:(lia)) as Hz.
    assert ((shl_align mx ex e').2 = e') as He.
    { unfold shl_align. destruct (e' - ex) eqn:E; simpl; lia. }
    destruct (shl_align mx ex e') as [mz ez]. simpl in Hz, He. subst ez.
    assert (0 < 2 ^ (ex - e')) by (apply Z.pow_pos_nonneg; lia).
    apply binary_round_aux_bound; simpl; try done; try lia.
    replace (- e') with (- ex + (ex - e')) by lia.
    rewrite pow2_split by lia. nia.
Qed.

Lemma binary_normalize_bound m e B :
  e <= 0 → 0 < B < 2 ^ prec → Z.abs m <= B * 2 ^ (- e) →
  bounded_by B (m <? 0) (binary_normalize prec emax m e false).
Proof.
  intros He HB Hle. destruct m as [|p|p]; simpl; [done| |];
    apply binary_round_bound; try done; lia.
Qed.

Lemma SFmul_bound x y Bx By sx sy :
  0 < Bx * By < 2 ^ prec →
  bounded_by Bx sx x → bounded_by By sy y →
  bounded_by (Bx * By) (xorb sx sy) (SFmul prec emax x y).
Proof.
  intros HB Hx Hy.
  destruct x as [sx'| | |sx' mx ex], y as [sy'| | |sy' my ey]; simpl in *;
    try done; try (by intuition subst).
  destruct Hx as (-> & Hex & Hmx), Hy as (-> & Hey & Hmy).
  assert (0 < 2 ^ (- ex)) by (apply Z.pow_pos_nonneg; lia).
  assert (0 < 2 ^ (- ey)) by (apply Z.pow_pos_nonneg; lia).
  apply binary_round_aux_bound; simpl; try done; try lia.
  replace (- (ex + ey)) with (- ex + - ey) by lia.
  rewrite pow2_split by lia. nia.
Qed.

(** [x - C] for [x] in [[0, 2C]] stays within [C] of zero. *)
Lemma SFsub_bound x my ey C :
  0 < C < 2 ^ prec → ey <= 0 → Z.pos my = C * 2 ^ (- ey) →
  bounded_by (2 * C) false x →
  ∃ s, bounded_by C s (SFsub prec emax x (S754_finite false my ey)).
Proof.
  intros HC Hey Hmy Hx.
  destruct x as [sx| | |sx mx ex]; simpl in *; try done.
  - exists true. simpl. repeat split; try done. lia.
  - destruct Hx as (-> & Hex & Hmx). simpl.
    set (ez := Z.min ex ey).
    rewrite (shl_align_spec mx ex ez), (shl_align_spec my ey ez) by lia.
    eexists. apply binary_normalize_bound; [lia|done|].
    assert (0 < 2 ^ (- ex)) by (apply Z.pow_pos_nonneg; lia).
    assert (0 < 2 ^ (- ey)) by (apply Z.pow_pos_nonneg; lia).
    assert (0 < 2 ^ (ex - ez)) by (apply Z.pow_pos_nonneg; lia).
    assert (0 < 2 ^ (ey - ez)) by (apply Z.pow_pos_nonneg; lia).
    assert (2 ^ (- ez) = 2 ^ (- ex) * 2 ^ (ex - ez)) as E1.
    { rewrite <- pow2_split by lia. f_equal. lia. }
    assert (2 ^ (- ez) = 2 ^ (- ey) * 2 ^ (ey - ez)) as E2.
    { rewrite <- pow2_split by lia. f_equal. lia. }
    assert (Z.pos mx * 2 ^ (ex - ez) <= 2 * C * 2 ^ (- ez)) by (rewrite E1; nia).
    assert (Z.pos my * 2 ^ (ey - ez) = C * 2 ^ (- ez)) by (rewrite E2; nia).
    lia.
Qed.

Lemma Zdigits2_unique m d :
  2 ^ (d - 1) <= m < 2 ^ d → 0 < d → Zdigits2 m = d.
Proof.
  intros [Hlo Hhi] Hd.
  assert (0 < 2 ^ (d - 1)) by (apply Z.pow_pos_nonneg; lia).
  pose proof (Zdigits2_le m d ltac:(lia) ltac:(lia)).
  pose proof (Zdigits2_ge m (d - 1) ltac:(lia) ltac:(lia)). lia.
Qed.

(** A mantissa of at most [prec] digits is stored as it is. *)
Lemma binary_round_exact s m e :
  let d := Z.pos (digits2_pos m) in
  d <= prec → emin prec emax <= e + d - prec → e + d <= emax →
  ∃ mz, Z.pos mz = Z.pos m * 2 ^ (prec - d) ∧
        binary_round prec emax s m e = S754_finite s mz (e + d - prec).
Proof.
  intros d Hd Hmin Hmax. unfold binary_round.
  assert (fexp prec emax (d + e) = e + d - prec) as Hf by (unfold fexp; lia).
  fold d. rewrite Hf.
  pose proof (shl_align_spec m e (e + d - prec) ltac:(lia)) as Hz.
  assert ((shl_align m e (e + d - prec)).2 = e + d - prec) as He.
  { unfold shl_align. destruct (e + d - prec - e) eqn:E; simpl; lia. }
  destruct (shl_align m e (e + d - prec)) as [mz ez]. simpl in Hz, He. subst ez.
  replace (e - (e + d - prec)) with (prec - d) in Hz by lia.
  exists mz. split; [done|].
  assert (Zdigits2 (Z.pos mz) = prec) as Hdz.
  { apply Zdigits2_unique; [|done]. rewrite Hz.
    destruct (Zdigits2_bounds (Z.pos m)) as [Hlo Hhi]; [lia|].
    simpl Zdigits2 in Hlo, Hhi. fold d in Hlo, Hhi.
    assert (0 < 2 ^ (prec - d)) by (apply Z.pow_pos_nonneg; lia).
    assert (0 < d) as Hd0 by (unfold d; lia).
    assert (2 ^ (prec - 1) = 2 ^ (d - 1) * 2 ^ (prec - d)) as ->.
    { rewrite <- pow2_split by lia. f_equal. lia. }
    assert (2 ^ prec = 2 ^ d * 2 ^ (prec - d)) as ->.
    { rewrite <- pow2_split by lia. f_equal. lia. }
    nia. }
  assert (fexp prec emax (prec + (e + d - prec)) - (e + d - prec) = 0) as Hsh
    by (unfold fexp; lia).
  unfold binary_round_aux, shr_fexp. rewrite Hdz, Hsh.
  cbn [shr shr_record_of_loc shr_m loc_of_shr_record round_nearest_even].
  rewrite Hdz, Hsh.
  cbn [shr shr_record_of_loc shr_m].
  destruct (Z.leb_spec (e + d - prec) (emax - prec)); [done|lia].
Qed.
End RoundingBounds.

Lemma is_exact_new_location n r : is_exact (new_location n r) = (r =? 0).
Proof.
  unfold new_location, new_location_even, new_location_odd.
  by destruct (Z.even n), (r =? 0).
Qed.

Lemma F32_div_10_bound x B :
  0 < B < 2 ^ 24 → bounded_by (10 * B) false x →
  bounded_by B false (F32.div x (F32.of_Z 10)).
Proof.
  intros HB Hx. change (F32.of_Z 10) with (S754_finite false 10485760 (-20)).
  destruct x as [sx| | |sx mx ex]; simpl in Hx; try done.
  - subst. done.
  - destruct Hx as (-> & Hex & Hmx). unfold F32.div, SFdiv, SFdiv_core_binary.
    change (Zdigits2 10485760) with 24.
    set (d1 := Zdigits2 (Z.pos mx)).
    set (e' := Z.min (fexp F32.prec F32.emax (d1 + ex - (24 + -20))) (ex - -20)).
    set (s := ex - -20 - e').
    assert (0 <= s) as Hs by (unfold s, e'; lia).
    assert (0 < 2 ^ (- ex)) by (apply Z.pow_pos_nonneg; lia).
    assert (0 < 2 ^ s) by (apply Z.pow_pos_nonneg; lia).
    assert (e' <= 0) as He'.
    { assert (d1 <= 28 - ex) as Hd.
      { apply Zdigits2_le; [|lia]. split; [lia|].
        replace (28 - ex) with (28 + - ex) by lia.
        rewrite Z.pow_add_r by lia. nia. }
      pose proof (fexp_nonpos F32.prec F32.emax ltac:(done) ltac:(done)
                    (d1 + ex - (24 + -20))) as Hf.
      unfold e'. unfold F32.prec in Hf at 1. lia. }
    assert (0 < 2 ^ (- e')) by (apply Z.pow_pos_nonneg; lia).
    assert (match s with
            | 0 => Z.pos mx
            | Z.pos _ => Z.shiftl (Z.pos mx) s
            | Z.neg _ => 0
            end = Z.pos mx * 2 ^ s) as ->.
    { destruct s eqn:E; [simpl; lia| |lia]. by rewrite Z.shiftl_mul_pow2. }
    set (m' := Z.pos mx * 2 ^ s).
    pose proof (Z.div_mod m' 10485760 ltac:(lia)) as Hdm.
    pose proof (Z.mod_pos_bound m' 10485760 ltac:(lia)) as Hmb.
    unfold Z.div, Z.modulo in Hdm, Hmb.
    destruct (Z.div_eucl m' 10485760) as [q r].
    assert (2 ^ (- ex) * 2 ^ s = 2 ^ 20 * 2 ^ (- e')) as Hsplit.
    { rewrite <- !Z.pow_add_r by lia. f_equal. unfold s. lia. }
    assert (m' <= 10485760 * (B * 2 ^ (- e'))) as Hm'.
    { unfold m'. change 10485760 with (10 * 2 ^ 20). nia. }
    apply binary_round_aux_bound; try done.
    + nia.
    + rewrite is_exact_new_location.
      destruct (Z.eqb_spec r 0); nia.
Qed.

(** * The coordinates lie in [[0, 360]] *)

Lemma bounded_by_F2Q B f :
  0 <= B → bounded_by B false f → is_finite f = true ∧ (0 <= F2Q f <= inject_Z B)%Q.
Proof.
  intros HB. destruct f as [s| | |s m e]; simpl; try done.
  - intros ->. split; [done|]. unfold Qle. simpl. lia.
  - intros (-> & He & Hm). split; [done|]. simpl.
    destruct (Z.leb_spec 0 e).
    + assert (e = 0) as -> by lia. simpl in *. unfold Qle. simpl. lia.
    + assert (0 < 2 ^ (- e)) by (apply Z.pow_pos_nonneg; lia).
      unfold Qle. simpl. rewrite Z2Pos.id by done. lia.
Qed.

Lemma random_sample_bound k : 0 <= k < 2 ^ 53 → bounded_by 1 false (random_sample k).
Proof.
  intros Hk. unfold random_sample.
  replace false with (k <? 0) at 1 by (apply Z.ltb_ge; lia).
  apply binary_normalize_bound; try done. simpl Z.opp. lia.
Qed.

Lemma of_F64_bound x B s :
  0 < B < 2 ^ 24 → bounded_by B s x → bounded_by B s (F32.of_F64 x).
Proof.
  intros HB Hx. destruct x as [sx| | |sx mx ex]; simpl in *; try done.
  destruct Hx as (-> & He & Hm). by apply binary_round_bound.
Qed.

Lemma coordinate_bound k :
  0 <= k < 2 ^ 53 → bounded_by 360 false (coordinate (F32.of_F64 (random_sample k))).
Proof.
  intros Hk. unfold coordinate.
  pose proof (of_F64_bound _ 1 false ltac:(lia) (random_sample_bound k Hk)) as Hv.
  set (v := F32.of_F64 (random_sample k)) in *.
  assert (bounded_by 120 false (F32.mul v (F32.of_Z 120))) as Ha.
  { apply (SFmul_bound 24 128 ltac:(done) ltac:(done) v (F32.of_Z 120) 1 120 false false);
      [lia|done|]. vm_compute. repeat split; congruence. }
  destruct (SFsub_bound 24 128 ltac:(done) ltac:(done)
              (F32.mul v (F32.of_Z 120)) 15728640 (-18) 60) as [s Ht];
    [lia|lia|done|done|].
  change (S754_finite false 15728640 (-18)) with (F32.of_Z 60) in Ht.
  fold F32.sub in Ht.
  set (t := F32.sub (F32.mul v (F32.of_Z 120)) (F32.of_Z 60)) in *.
  assert (bounded_by 3600 false (F32.mul t t)) as Hs.
  { pose proof (SFmul_bound 24 128 ltac:(done) ltac:(done) t t 60 60 s s
                  ltac:(lia) Ht Ht) as H.
    by rewrite xorb_nilpotent in H. }
  by apply F32_div_10_bound.
Qed.

(** * The order of floats *)

Lemma SFleb_key a b :
  is_nan a = false → is_nan b = false →
  (SFleb a b = true ↔ lex_le (key a) (key b)) ∧
  (SFltb a b = false ↔ lex_le (key b) (key a)).
Proof.
  intros Ha Hb. unfold SFleb, SFltb, lex_le.
  destruct a as [[]|[]| |[] m1 e1], b as [[]|[]| |[] m2 e2]; simpl in *;
    try done; try (split; split; (done || lia));
    rewrite Pos.compare_cont_spec; simpl;
    destruct (Z.compare_spec e1 e2); simpl;
    try destruct (Pos.compare_spec m1 m2); simpl;
    split; split; (done || lia).
Qed.

Lemma SFleb_refl a : is_nan a = false → SFleb a a = true.
Proof. intros Ha. apply (SFleb_key a a Ha Ha). unfold lex_le. lia. Qed.

Lemma SFleb_trans a b c :
  is_nan b = false → SFleb a b = true → SFleb b c = true → SFleb a c = true.
Proof.
  intros Hb Hab Hbc.
  assert (is_nan a = false) as Ha by (by destruct a).
  assert (is_nan c = false) as Hc by (by destruct b, c as [| | |[]]).
  apply (SFleb_key a b Ha Hb) in Hab. apply (SFleb_key b c Hb Hc) in Hbc.
  apply (SFleb_key a c Ha Hc). unfold lex_le in *. lia.
Qed.

Lemma SFleb_total a b :
  is_nan a = false → is_nan b = false → SFltb a b = false → SFleb b a = true.
Proof.
  intros Ha Hb Hlt. apply (SFleb_key a b Ha Hb) in Hlt. by apply (SFleb_key b a Hb Ha).
Qed.

Lemma SFltb_leb a b : SFltb a b = true → SFleb a b = true.
Proof. unfold SFltb, SFleb. by destruct (SFcompare a b) as [[]|]. Qed.

(** * Facts about the column aggregates *)

Section Extreme.
Variable R : spec_float → spec_float → Prop.
Variable op : spec_float → spec_float → spec_float.
Hypothesis op_spec : ∀ a b, is_nan a = false → is_nan b = false →
  (op a b = a ∨ op a b = b) ∧ R a (op a b) ∧ R b (op a b).
Hypothesis R_refl : ∀ a, is_nan a = false → R a a.
Hypothesis R_trans : ∀ a b c, is_nan b = false → R a b → R b c → R a c.

Lemma foldl_extreme xs x :
  is_nan x = false → Forall (λ y, is_nan y = false) xs →
  foldl op x xs ∈ x :: xs ∧ ∀ y, y ∈ x :: xs → R y (foldl op x xs).
Proof.
  revert x. induction xs as [|z xs IH]; intros x Hx Hxs; simpl.
  - split; [apply list_elem_of_here|]. intros y Hy.
    apply list_elem_of_singleton in Hy as ->. by apply R_refl.
  - apply Forall_cons in Hxs as [Hz Hxs].
    destruct (op_spec x z Hx Hz) as (Hsel & Rx & Rz).
    assert (is_nan (op x z) = false) as Hop by (by destruct Hsel as [-> | ->]).
    destruct (IH (op x z) Hop Hxs) as [Hin Hall]. split.
    + apply elem_of_cons in Hin as [Hin|Hin].
      * rewrite Hin. destruct Hsel as [-> | ->];
          [apply list_elem_of_here|apply list_elem_of_further, list_elem_of_here].
      * by do 2 apply list_elem_of_further.
    + assert (R (op x z) (foldl op (op x z) xs)) as Rop
        by apply Hall, list_elem_of_here.
      intros y Hy. apply elem_of_cons in Hy as [->|Hy]; [by eapply R_trans|].
      apply elem_of_cons in Hy as [->|Hy]; [by eapply R_trans|].
      by apply Hall, list_elem_of_further.
Qed.
End Extreme.

Lemma f32_max_spec a b :
  is_nan a = false → is_nan b = false →
  (f32_max a b = a ∨ f32_max a b = b) ∧
  SFleb a (f32_max a b) = true ∧ SFleb b (f32_max a b) = true.
Proof.
  intros Ha Hb. unfold f32_max. rewrite Ha, Hb.
  destruct (SFltb a b) eqn:Hlt.
  - split; [by right|]. split; [by apply SFltb_leb|by apply SFleb_refl].
  - split; [by left|]. split; [by apply SFleb_refl|by apply SFleb_total].
Qed.

Lemma f32_min_spec a b :
  is_nan a = false → is_nan b = false →
  (f32_min a b = a ∨ f32_min a b = b) ∧
  SFleb (f32_min a b) a = true ∧ SFleb (f32_min a b) b = true.
Proof.
  intros Ha Hb. unfold f32_min. rewrite Ha, Hb.
  destruct (SFltb b a) eqn:Hlt.
  - split; [by right|]. split; [by apply SFltb_leb|by apply SFleb_refl].
  - split; [by left|]. split; [by apply SFleb_refl|by apply SFleb_total].
Qed.

Lemma aggregate_max col :
  Forall (λ y, is_nan y = false) col →
  match aggregate f32_max col with
  | None => col = []
  | Some M => M ∈ col ∧ ∀ y, y ∈ col → SFleb y M = true
  end.
Proof.
  destruct col as [|x xs]; [done|]. intros Hcol. simpl.
  apply Forall_cons in Hcol as [Hx Hxs].
  apply (foldl_extreme (λ y M, SFleb y M = true) f32_max); try done.
  - apply f32_max_spec.
  - apply SFleb_refl.
  - intros a b c. apply SFleb_trans.
Qed.

Lemma aggregate_min col :
  Forall (λ y, is_nan y = false) col →
  match aggregate f32_min col with
  | None => col = []
  | Some m => m ∈ col ∧ ∀ y, y ∈ col → SFleb m y = true
  end.
Proof.
  destruct col as [|x xs]; [done|]. intros Hcol. simpl.
  apply Forall_cons in Hcol as [Hx Hxs].
  apply (foldl_extreme (λ y m, SFleb m y = true) f32_min); try done.
  - apply f32_min_spec.
  - apply SFleb_refl.
  - intros a b c Hb Hab Hbc. by apply (SFleb_trans c b a).
Qed.

Lemma select_columns_Ok cols names :
  (∀ name, name ∈ names → is_Some (get_column cols name)) →
  ∃ sel, select_columns cols names = Ok sel ∧
         length sel = length names ∧
         ∀ k name, names !! k = Some name →
                   ∃ col, get_column cols name = Some col ∧ sel !! k = Some (name, col).
Proof.
  induction names as [|name names IH]; intros Hall.
  - exists []. by repeat split.
  - destruct (Hall name (list_elem_of_here _ _)) as [col Hcol].
    destruct IH as (sel & Hsel & Hlen & Hlook).
    { intros n Hn. by apply Hall, list_elem_of_further. }
    exists ((name, col) :: sel). simpl. rewrite Hcol, Hsel. split; [done|].
    split; [simpl; by rewrite Hlen|].
    intros [|k] n Hk; simpl in *.
    + injection Hk as <-. by exists col.
    + by apply Hlook.
Qed.

Lemma select_columns_missing cols names :
  (∃ name, name ∈ names ∧ get_column cols name = None) →
  ∃ name, name ∈ names ∧ get_column cols name = None ∧
          select_columns cols names = Raise (ColumnNotFoundError name).
Proof.
  induction names as [|name names IH]; intros (n & Hn & Hnone).
  - by apply elem_of_nil in Hn.
  - simpl. destruct (get_column cols name) as [col|] eqn:Hcol.
    + apply elem_of_cons in Hn as [->|Hn]; [congruence|].
      destruct IH as (n' & Hn' & Hnone' & ->); [by exists n|].
      exists n'. split; [by apply list_elem_of_further|done].
    + exists name. split; [apply list_elem_of_here|done].
Qed.

(** NaN is a value of a numeric ([float32]) column, and it compares with
    nothing.  On the column [[1; NaN; 0]] the maximum is 1 and the minimum is 0,
    and the row that holds NaN is neither at most the maximum nor at least the
    minimum. *)
Lemma column_max_nan_row :
  (∀ name, name ∈ ["x-coor"%string] →
     ∃ col, get_column (columns nan_frame) name = Some col) ∧
  ∃ col M m x,
    get_column (columns nan_frame) "x-coor" = Some col ∧
    column_max nan_frame ["x-coor"%string] = Ok [Some M] ∧
    column_min nan_frame ["x-coor"%string] = Ok [Some m] ∧
    x ∈ col ∧
    F32.leb x M = false ∧ F32.leb m x = false.
Proof.
  split.
  - intros name Hname. apply list_elem_of_singleton in Hname as ->. by eexists.
  - exists [F32.of_Z 1; S754_nan; F32.of_Z 0], (F32.of_Z 1), (F32.of_Z 0), S754_nan.
    split; [done|]. split; [by vm_compute|]. split; [by vm_compute|].
    split; [|by vm_compute].
    apply list_elem_of_further, list_elem_of_here.
Qed.

(** C4, amended: for a table and an ordered list of column names that all
    exist and hold numeric values none of which is NaN, [column_max] and
    [column_min] return one value per requested column, in the order requested,
    and every row's value in a column is at most the maximum returned for it
    and at least the minimum; both are values of the column. *)
Theorem column_max_min_bounds df names :
  (∀ name, name ∈ names →
     ∃ col, get_column (columns df) name = Some col ∧ Forall (λ x, is_nan x = false) col) →
  ∃ maxs mins,
    column_max df names = Ok maxs ∧ column_min df names = Ok mins ∧
    length maxs = length names ∧ length mins = length names ∧
    ∀ k name col, names !! k = Some name → get_column (columns df) name = Some col →
      ∀ x, x ∈ col →
        ∃ M m, maxs !! k = Some (Some M) ∧ mins !! k = Some (Some m) ∧
               M ∈ col ∧ m ∈ col ∧
               F32.leb x M = true ∧ F32.leb m x = true.
Proof.
  intros Hall.
  destruct (select_columns_Ok (columns df) names) as (sel & Hsel & Hlen & Hlook).
  { intros name Hname. destruct (Hall name Hname) as (col & -> & _). by eexists. }
  exists ((λ c, aggregate f32_max c.2) <$> sel), ((λ c, aggregate f32_min c.2) <$> sel).
  unfold column_max, column_min, select. rewrite Hsel.
  split; [done|]. split; [done|]. rewrite !length_fmap. split; [done|]. split; [done|].
  intros k name col Hk Hcol x Hx.
  destruct (Hlook k name Hk) as (col' & Hcol' & Hselk).
  assert (col' = col) as -> by congruence.
  destruct (Hall name) as (col' & Hcol'' & Hnum).
  { apply list_elem_of_lookup. by exists k. }
  assert (col' = col) as -> by congruence.
  pose proof (aggregate_max col Hnum) as Hmax.
  pose proof (aggregate_min col Hnum) as Hmin.
  rewrite !list_lookup_fmap, Hselk. simpl.
  destruct (aggregate f32_max col) as [M|]; [|by subst; apply elem_of_nil in Hx].
  destruct (aggregate f32_min col) as [m|]; [|by subst; apply elem_of_nil in Hx].
  exists M, m. destruct Hmax as [HM HMx], Hmin as [Hm Hmx].
  repeat split; try done; [by apply HMx|by apply Hmx].
Qed.

Lemma column_max_min_bounds_witness :
  ∃ maxs mins,
    column_max sample_frame ["y-coor"; "x-coor"]%string = Ok maxs ∧
    column_min sample_frame ["y-coor"; "x-coor"]%string = Ok mins ∧
    length maxs = length ["y-coor"; "x-coor"]%string ∧
    length mins = length ["y-coor"; "x-coor"]%string ∧
    ∀ k name col, ["y-coor"; "x-coor"]%string !! k = Some name →
      get_column (columns sample_frame) name = Some col →
      ∀ x, x ∈ col →
        ∃ M m, maxs !! k = Some (Some M) ∧ mins !! k = Some (Some m) ∧
               M ∈ col ∧ m ∈ col ∧
               F32.leb x M = true ∧ F32.leb m x = true.
Proof.
  apply (column_max_min_bounds sample_frame ["y-coor"; "x-coor"]%string).
  intros name Hname.
  repeat (apply elem_of_cons in Hname as [->|Hname]);
    [eexists; split; [reflexivity|by repeat constructor]..|by apply elem_of_nil in Hname].
Defined.

(** C5: when a requested name is absent from the table, [column_max] fails
    with Column-Not-Found for an absent name and returns no values at all. The
    table is an argument that is only read. *)
Theorem column_max_unknown_column df names :
  (∃ name, name ∈ names ∧ get_column (columns df) name = None) →
  (∃ name, name ∈ names ∧ get_column (columns df) name = None ∧
           column_max df names = Raise (ColumnNotFoundError name)) ∧
  ∀ vals, column_max df names ≠ Ok vals.
Proof.
  intros Hmiss.
  destruct (select_columns_missing (columns df) names Hmiss) as (n & Hn & Hnone & Hsel).
  assert (column_max df names = Raise (ColumnNotFoundError n)) as Hmax.
  { unfold column_max, select. by rewrite Hsel. }
  split; [by exists n|]. intros vals. by rewrite Hmax.
Qed.

Lemma column_max_unknown_column_witness :
  (∃ name, name ∈ ["x-coor"; "w-coor"]%string ∧
           get_column (columns sample_frame) name = None ∧
           column_max sample_frame ["x-coor"; "w-coor"]%string
             = Raise (ColumnNotFoundError name)) ∧
  ∀ vals, column_max sample_frame ["x-coor"; "w-coor"]%string ≠ Ok vals.
Proof.
  apply (column_max_unknown_column sample_frame ["x-coor"; "w-coor"]%string).
  exists "w-coor"%string. split; [|reflexivity].
  apply list_elem_of_further, list_elem_of_here.
Defined.

(** * Integers in float cells *)

Lemma wrap64_small z : - 2 ^ 63 <= z < 2 ^ 63 → wrap64 z = z.
Proof. intros Hz. unfold wrap64. rewrite Z.mod_small; lia. Qed.

Lemma F32_of_Z_exact n : 1 <= n <= 2 ^ 24 → holds (F32.of_Z n) n.
Proof.
  intros Hn. destruct (Z.eq_dec n (2 ^ 24)) as [->|Hne].
  { split; [done|]. vm_compute. done. }
  destruct n as [|p|p]; try lia. unfold F32.of_Z, binary_normalize.
  assert (Zdigits2 (Z.pos p) <= 24) as Hd by (apply Zdigits2_le; lia).
  pose proof (Zdigits2_nonneg (Z.pos p)) as Hd0. simpl Zdigits2 in Hd, Hd0.
  destruct (binary_round_exact F32.prec F32.emax (eq_refl : 0 < 24) false p 0)
    as (mz & Hmz & ->); unfold F32.prec, F32.emax, emin; try lia.
  unfold F32.prec in Hmz.
  set (d := Z.pos (digits2_pos p)) in *. split; [done|]. unfold F2Q.
  destruct (Z.leb_spec 0 (0 + d - 24)).
  - replace (24 - d) with 0 in Hmz by lia. replace (0 + d - 24) with 0 by lia.
    unfold Qeq. simpl. lia.
  - assert (0 < 2 ^ (24 - d)) by (apply Z.pow_pos_nonneg; lia).
    unfold Qeq. simpl. replace (- (0 + d - 24)) with (24 - d) by lia.
    rewrite Z2Pos.id by done. lia.
Qed.

Lemma atom_id_holds i : Z.of_nat i + 1 <= 2 ^ 24 → holds (atom_id i) (Z.of_nat i + 1).
Proof.
  intros Hi. unfold atom_id. rewrite wrap64_small by lia. apply F32_of_Z_exact. lia.
Qed.

Lemma lookup_tabulated_column {A} (f : nat → A) n i :
  (i < n)%nat → (f <$> seq 0 n) !! i = Some (f i).
Proof. intros Hi. by rewrite list_lookup_fmap, (lookup_seq_lt 0 n i Hi). Qed.

Lemma generate_atoms_closed rng count :
  0 <= count →
  let n := Z.to_nat count in
  generate_atoms rng count = Ok
    {| columns :=
        [("atom-id", atom_id <$> seq 0 n);
         ("atom-type", atom_type n <$> seq 0 n);
         ("mol-type", atom_type n <$> seq 0 n);
         ("x-coor", coordinate_at rng 3 <$> seq 0 n);
         ("y-coor", coordinate_at rng 4 <$> seq 0 n);
         ("z-coor", coordinate_at rng 5 <$> seq 0 n)]%string |}.
Proof. intros Hc n. unfold generate_atoms. by rewrite generate_closed. Qed.

Lemma generate_atoms_negative rng count :
  count < 0 → generate_atoms rng count = Raise ValueError.
Proof.
  intros Hc. unfold generate_atoms, generate, np_random_rand.
  by destruct (Z.ltb_spec count 0); [|lia].
Qed.

(** C1, amended: for every count >= 200, [generate_atoms] returns a table
    with exactly [count] rows and 6 columns; row [i] of its ['atom-id'] column
    is [i] stored as a [float32], which holds [i] itself for every [i <= 2^24]:
    the column is 1, 2, ..., count whenever count <= 16777216. *)
Theorem atoms_shape_and_ids rng count :
  200 <= count →
  ∃ df ids,
    generate_atoms rng count = Ok df ∧
    df_shape df = (count, 6) ∧
    get_column (columns df) "atom-id" = Some ids ∧
    Z.of_nat (length ids) = count ∧
    ∀ i, 0 <= i < count →
         ∃ x, ids !! Z.to_nat i = Some x ∧
              (i + 1 < 2 ^ 63 → x = F32.of_Z (i + 1)) ∧
              (i + 1 <= 2 ^ 24 → holds x (i + 1)).
Proof.
  intros Hc. assert (0 <= count) as Hc0 by lia.
  pose proof (generate_atoms_closed rng count Hc0) as Hg. cbv zeta in Hg.
  eexists _, (atom_id <$> seq 0 (Z.to_nat count)).
  split; [exact Hg|]. split; [|split; [done|split]].
  - unfold df_shape, height, width. simpl. rewrite length_fmap, length_seq. f_equal. lia.
  - rewrite length_fmap, length_seq. lia.
  - intros i Hi. exists (atom_id (Z.to_nat i)).
    rewrite lookup_tabulated_column by lia. split; [done|].
    replace (i + 1) with (Z.of_nat (Z.to_nat i) + 1) by lia. split.
    + intros Hi63. unfold atom_id. by rewrite wrap64_small by lia.
    + intros Hi24. apply atom_id_holds. lia.
Qed.

Lemma atoms_shape_and_ids_witness :
  ∃ df ids,
    generate_atoms rng1 1200 = Ok df ∧
    df_shape df = (1200, 6) ∧
    get_column (columns df) "atom-id" = Some ids ∧
    Z.of_nat (length ids) = 1200 ∧
    ∀ i, 0 <= i < 1200 →
         ∃ x, ids !! Z.to_nat i = Some x ∧
              (i + 1 < 2 ^ 63 → x = F32.of_Z (i + 1)) ∧
              (i + 1 <= 2 ^ 24 → holds x (i + 1)).
Proof. apply (atoms_shape_and_ids rng1 1200). lia. Defined.

(** With 16777217 rows the last identifier is stored as 16777216: a
    [float32] has 24 bits of mantissa. *)
Lemma atoms_ids_rounded :
  200 <= 16777217 ∧
  ∃ df ids x,
    generate_atoms rng0 16777217 = Ok df ∧
    get_column (columns df) "atom-id" = Some ids ∧
    ids !! Z.to_nat 16777216 = Some x ∧
    ¬ holds x (16777216 + 1).
Proof.
  split; [lia|]. eexists _, _, _. rewrite generate_atoms_closed by lia.
  split; [done|]. split; [done|]. split.
  - apply lookup_tabulated_column. lia.
  - unfold atom_id. rewrite Z2Nat.id by lia. rewrite wrap64_small by lia.
    intros [_ H]. vm_compute in H. done.
Qed.

Lemma category_codes : holds (F32.of_Z 1) 1 ∧ holds (F32.of_Z 2) 2 ∧ holds (F32.of_Z 3) 3.
Proof. repeat split; by apply F32_of_Z_exact. Qed.

(** C3: for every count >= 200, the ['atom-type'] column holds 2 in each of
    the first 100 rows, 3 in each of the last 100 rows and 1 in every other
    row. *)
Theorem atom_type_bands rng count :
  200 <= count →
  ∃ df types,
    generate_atoms rng count = Ok df ∧
    get_column (columns df) "atom-type" = Some types ∧
    Z.of_nat (length types) = count ∧
    ∀ i, 0 <= i < count →
         types !! Z.to_nat i =
           Some (F32.of_Z (if i <? 100 then 2 else if count - 100 <=? i then 3 else 1)).
Proof.
  intros Hc. assert (0 <= count) as Hc0 by lia.
  pose proof (generate_atoms_closed rng count Hc0) as Hg. cbv zeta in Hg.
  eexists _, (atom_type (Z.to_nat count) <$> seq 0 (Z.to_nat count)).
  split; [exact Hg|]. split; [done|]. split.
  - rewrite length_fmap, length_seq. lia.
  - intros i Hi. rewrite lookup_tabulated_column by lia. f_equal.
    unfold atom_type. rewrite !Z2Nat.id by lia.
    split_cmp; cbn [andb]; try done; exfalso; lia.
Qed.

Lemma atom_type_bands_witness :
  ∃ df types,
    generate_atoms rng1 1200 = Ok df ∧
    get_column (columns df) "atom-type" = Some types ∧
    Z.of_nat (length types) = 1200 ∧
    ∀ i, 0 <= i < 1200 →
         types !! Z.to_nat i =
           Some (F32.of_Z (if i <? 100 then 2 else if 1200 - 100 <=? i then 3 else 1)).
Proof. apply (atom_type_bands rng1 1200). lia. Defined.

(** C8: for every count >= 1, the ['mol-type'] column is the ['atom-type']
    column, row by row. *)
Theorem mol_type_mirrors_atom_type rng count :
  1 <= count →
  ∃ df types,
    generate_atoms rng count = Ok df ∧
    get_column (columns df) "atom-type" = Some types ∧
    get_column (columns df) "mol-type" = Some types ∧
    Z.of_nat (length types) = count.
Proof.
  intros Hc. assert (0 <= count) as Hc0 by lia.
  pose proof (generate_atoms_closed rng count Hc0) as Hg. cbv zeta in Hg.
  eexists _, (atom_type (Z.to_nat count) <$> seq 0 (Z.to_nat count)).
  split; [exact Hg|]. split; [done|]. split; [done|].
  rewrite length_fmap, length_seq. lia.
Qed.

Lemma mol_type_mirrors_atom_type_witness :
  ∃ df types,
    generate_atoms rng1 1200 = Ok df ∧
    get_column (columns df) "atom-type" = Some types ∧
    get_column (columns df) "mol-type" = Some types ∧
    Z.of_nat (length types) = 1200.
Proof. apply (mol_type_mirrors_atom_type rng1 1200). lia. Defined.

(** C10: for a count below 200 the writes happen in sequence (1 everywhere,
    2 in the first [min 100 count] rows, 3 in the last [min 100 count] rows), so
    a row in both bands ends with 3; no row keeps 1, and for count <= 100 every
    row has category code 3. *)
Theorem atom_type_overlap rng count :
  count < 200 →
  (0 <= count → ∃ df, generate_atoms rng count = Ok df) ∧
  ∀ df, generate_atoms rng count = Ok df →
    ∃ types,
      get_column (columns df) "atom-type" = Some types ∧
      Z.of_nat (length types) = count ∧
      (∀ i, 0 <= i < count →
            types !! Z.to_nat i =
              Some (F32.of_Z (if count - Z.min 100 count <=? i then 3
                              else if i <? Z.min 100 count then 2 else 1))) ∧
      (∀ i, 0 <= i < count →
            types !! Z.to_nat i = Some (F32.of_Z (if count - 100 <=? i then 3 else 2))) ∧
      (count <= 100 → ∀ i, 0 <= i < count → types !! Z.to_nat i = Some (F32.of_Z 3)).
Proof.
  intros Hc. split.
  { intros Hc0. eexists. by apply generate_atoms_closed. }
  intros df Hdf. destruct (Z.lt_ge_cases count 0) as [Hneg|Hc0].
  { by rewrite generate_atoms_negative in Hdf. }
  pose proof (generate_atoms_closed rng count Hc0) as Hg. cbv zeta in Hg.
  rewrite Hg in Hdf. injection Hdf as <-.
  exists (atom_type (Z.to_nat count) <$> seq 0 (Z.to_nat count)).
  split; [done|]. split; [rewrite length_fmap, length_seq; lia|].
  repeat split; intros; rewrite lookup_tabulated_column by lia; f_equal;
    unfold atom_type; rewrite !Z2Nat.id by lia;
    split_cmp; cbn [andb]; try done; exfalso; lia.
Qed.

Lemma atom_type_overlap_witness :
  (0 <= 150 → ∃ df, generate_atoms rng1 150 = Ok df) ∧
  ∀ df, generate_atoms rng1 150 = Ok df →
    ∃ types,
      get_column (columns df) "atom-type" = Some types ∧
      Z.of_nat (length types) = 150 ∧
      (∀ i, 0 <= i < 150 →
            types !! Z.to_nat i =
              Some (F32.of_Z (if 150 - Z.min 100 150 <=? i then 3
                              else if i <? Z.min 100 150 then 2 else 1))) ∧
      (∀ i, 0 <= i < 150 →
            types !! Z.to_nat i = Some (F32.of_Z (if 150 - 100 <=? i then 3 else 2))) ∧
      (150 <= 100 → ∀ i, 0 <= i < 150 → types !! Z.to_nat i = Some (F32.of_Z 3)).
Proof. apply (atom_type_overlap rng1 150). lia. Defined.

(** The [bonds] and [angles] tables are as C2 says, and [dihedrals] is 1 in
    every cell, its first column included. *)
Lemma placeholder_tables rng size :
  1 <= size < 2 ^ 63 →
  ∃ t, generate rng size = Ok t ∧
    shape (bonds t) = (size, 4) ∧ shape (angles t) = (size, 5) ∧
    shape (dihedrals t) = (size, 6) ∧
    ∀ i j, 0 <= i < size →
      (0 <= j < 4 → cell (bonds t) (Z.to_nat i) (Z.to_nat j) = Some (if j =? 0 then i + 1 else 1)) ∧
      (0 <= j < 5 → cell (angles t) (Z.to_nat i) (Z.to_nat j) = Some (if j =? 0 then i + 1 else 1)) ∧
      (0 <= j < 6 → cell (dihedrals t) (Z.to_nat i) (Z.to_nat j) = Some 1).
Proof.
  intros Hs. eexists. split; [apply generate_closed; lia|]. cbn [bonds angles dihedrals].
  rewrite !shape_tabulate, Z2Nat.id by lia. repeat split; try done;
    intros Hj; rewrite cell_tabulate by lia; try done;
    unfold placeholder_row; f_equal;
    (destruct (Z.eqb_spec j 0) as [->|Hne];
     [rewrite decide_True by done; rewrite wrap64_small; lia
     |rewrite decide_False by lia; done]).
Qed.

(** C2: in the notebook's own run (size 1200), row 1 of the first column holds
    2 in [bonds] and in [angles], as the specification says, and 1 in
    [dihedrals], where the specification asks for 2: the notebook never writes
    the identifiers of [dihedrals]. *)
Theorem dihedrals_ids_not_set rng :
  ∃ t, generate rng 1200 = Ok t ∧
       cell (bonds t) 1 0 = Some 2 ∧
       cell (angles t) 1 0 = Some 2 ∧
       cell (dihedrals t) 1 0 = Some 1.
Proof.
  eexists. split; [apply generate_closed; lia|]. cbn [bonds angles dihedrals].
  rewrite !cell_tabulate by lia. done.
Qed.

Lemma coordinate_column rng count name :
  0 <= count → name ∈ coordinate_columns →
  ∃ df j, generate_atoms rng count = Ok df ∧ (3 <= j < 6)%nat ∧
    get_column (columns df) name = Some (coordinate_at rng j <$> seq 0 (Z.to_nat count)).
Proof.
  intros Hc Hname.
  pose proof (generate_atoms_closed rng count Hc) as Hg. cbv zeta in Hg.
  unfold coordinate_columns in Hname.
  repeat (apply elem_of_cons in Hname as [->|Hname]);
    [eexists _, 3%nat|eexists _, 4%nat|eexists _, 5%nat|by apply elem_of_nil in Hname];
    (split; [exact Hg|split; [lia|done]]).
Qed.



Lemma rng1_range n : 0 <= rng1 n < 2 ^ 53.
Proof. unfold rng1. apply Z.mod_pos_bound. lia. Qed.

Lemma x_coor_is_coordinate : "x-coor"%string ∈ coordinate_columns.
Proof. unfold coordinate_columns. apply elem_of_cons. by left. Qed.


Lemma coordinate_at_bound rng j i :
  (∀ n, 0 <= rng n < 2 ^ 53) → bounded_by 360 false (coordinate_at rng j i).
Proof. intros Hrng. apply coordinate_bound, Hrng. Qed.

(** C7: for every count >= 1, every value of a coordinate column is
    greater than or equal to 0. *)
Theorem coordinates_nonneg rng count name :
  (∀ n, 0 <= rng n < 2 ^ 53) → 1 <= count → name ∈ coordinate_columns →
  ∃ df col,
    generate_atoms rng count = Ok df ∧
    get_column (columns df) name = Some col ∧
    Z.of_nat (length col) = count ∧
    ∀ x, x ∈ col →
      is_finite x = true ∧ (0 <= F2Q x)%Q ∧ F32.leb (F32.of_Z 0) x = true.
Proof.
  intros Hrng Hc Hname.
  destruct (coordinate_column rng count name ltac:(lia) Hname) as (df & j & Hg & Hj & Hcol).
  exists df, (coordinate_at rng j <$> seq 0 (Z.to_nat count)).
  split; [done|]. split; [done|]. split; [rewrite length_fmap, length_seq; lia|].
  intros x Hx. apply list_elem_of_fmap in Hx as (i & -> & _).
  pose proof (coordinate_at_bound rng j i Hrng) as Hb.
  destruct (bounded_by_F2Q 360 _ ltac:(lia) Hb) as (Hfin & Hlo & _).
  split; [done|]. split; [done|].
  clear Hfin Hlo. revert Hb. generalize (coordinate_at rng j i).
  intros [[]| | |[] m e]; simpl; try done; intuition congruence.
Qed.

Lemma coordinates_nonneg_witness :
  ∃ df col,
    generate_atoms rng1 1200 = Ok df ∧
    get_column (columns df) "x-coor" = Some col ∧
    Z.of_nat (length col) = 1200 ∧
    ∀ x, x ∈ col →
      is_finite x = true ∧ (0 <= F2Q x)%Q ∧ F32.leb (F32.of_Z 0) x = true.
Proof.
  apply (coordinates_nonneg rng1 1200 "x-coor");
    [apply rng1_range|lia|apply x_coor_is_coordinate].
Defined.

(** The draw 0 gives [(0*120 - 60)^2 / 10 = 360]: a coordinate that is not
    strictly below 360. *)
Lemma coordinate_reaches_360 :
  (∀ n, 0 <= rng0 n < 2 ^ 53) ∧ 1 <= 1 ∧
  ∃ df col x,
    generate_atoms rng0 1 = Ok df ∧
    get_column (columns df) "x-coor" = Some col ∧
    col !! 0%nat = Some x ∧
    ¬ (F2Q x < 360)%Q.
Proof.
  split; [intros n; unfold rng0; lia|]. split; [lia|].
  eexists _, _, _. split; [by vm_compute|]. split; [done|]. split; [done|].
  vm_compute. done.
Qed.

(** C9, amended: for every count >= 1, every value of a coordinate column lies
    in [[0, 360]]; it is at most 360, not strictly below it. *)
Theorem coordinates_at_most_360 rng count name :
  (∀ n, 0 <= rng n < 2 ^ 53) → 1 <= count → name ∈ coordinate_columns →
  ∃ df col,
    generate_atoms rng count = Ok df ∧
    get_column (columns df) name = Some col ∧
    Z.of_nat (length col) = count ∧
    ∀ x, x ∈ col → is_finite x = true ∧ (0 <= F2Q x <= 360)%Q.
Proof.
  intros Hrng Hc Hname.
  destruct (coordinate_column rng count name ltac:(lia) Hname) as (df & j & Hg & Hj & Hcol).
  exists df, (coordinate_at rng j <$> seq 0 (Z.to_nat count)).
  split; [done|]. split; [done|]. split; [rewrite length_fmap, length_seq; lia|].
  intros x Hx. apply list_elem_of_fmap in Hx as (i & -> & _).
  apply (bounded_by_F2Q 360); [lia|]. by apply coordinate_at_bound.
Qed.

Lemma coordinates_at_most_360_witness :
  ∃ df col,
    generate_atoms rng1 1200 = Ok df ∧
    get_column (columns df) "x-coor" = Some col ∧
    Z.of_nat (length col) = 1200 ∧
    ∀ x, x ∈ col → is_finite x = true ∧ (0 <= F2Q x <= 360)%Q.
Proof.
  apply (coordinates_at_most_360 rng1 1200 "x-coor");
    [apply rng1_range|lia|apply x_coor_is_coordinate].
Defined.

(** * Further properties of the notebook's tables *)

Lemma placeholder_tables_witness :
  ∃ t, generate rng1 3 = Ok t ∧
    shape (bonds t) = (3, 4) ∧ shape (angles t) = (3, 5) ∧
    shape (dihedrals t) = (3, 6) ∧
    ∀ i j, 0 <= i < 3 →
      (0 <= j < 4 → cell (bonds t) (Z.to_nat i) (Z.to_nat j) = Some (if j =? 0 then i + 1 else 1)) ∧
      (0 <= j < 5 → cell (angles t) (Z.to_nat i) (Z.to_nat j) = Some (if j =? 0 then i + 1 else 1)) ∧
      (0 <= j < 6 → cell (dihedrals t) (Z.to_nat i) (Z.to_nat j) = Some 1).
Proof. apply (placeholder_tables rng1 3). lia. Defined.

(** Integers stored in [float32] keep their order up to [2^24]. *)
Lemma F32_of_Z_form n :
  1 <= n < 2 ^ 24 →
  ∃ m, F32.of_Z n = S754_finite false m (Zdigits2 n - 24) ∧
       Z.pos m = n * 2 ^ (24 - Zdigits2 n) ∧ 1 <= Zdigits2 n <= 24.
Proof.
  intros Hn. destruct n as [|p|p]; try lia.
  assert (Zdigits2 (Z.pos p) <= 24) as Hd by (apply Zdigits2_le; lia).
  simpl Zdigits2 in *.
  destruct (binary_round_exact F32.prec F32.emax (eq_refl : 0 < 24) false p 0)
    as (mz & Hmz & Hr); unfold F32.prec, F32.emax, emin in *; try lia.
  exists mz. unfold F32.of_Z, binary_normalize, F32.prec, F32.emax. rewrite Hr.
  split; [f_equal; lia|]. split; [done|lia].
Qed.

Lemma F32_of_Z_lt a b :
  1 <= a → a < b → b <= 2 ^ 24 → SFltb (F32.of_Z a) (F32.of_Z b) = true.
Proof.
  intros Ha Hab Hb.
  destruct (F32_of_Z_form a ltac:(lia)) as (ma & -> & Hma & Hda).
  destruct (Z.eq_dec b (2 ^ 24)) as [->|Hne].
  { change (F32.of_Z (2 ^ 24)) with (S754_finite false 8388608 1).
    unfold SFltb, SFcompare.
    by destruct (Z.compare_spec (Zdigits2 a - 24) 1); [lia| |lia]. }
  destruct (F32_of_Z_form b ltac:(lia)) as (mb & -> & Hmb & Hdb).
  assert (Zdigits2 a <= Zdigits2 b) as Hd.
  { apply Zdigits2_le; [|lia]. destruct (Zdigits2_bounds b); lia. }
  unfold SFltb, SFcompare.
  destruct (Z.compare_spec (Zdigits2 a - 24) (Zdigits2 b - 24)) as [E|E|E];
    [|done|lia].
  rewrite Pos.compare_cont_spec. simpl.
  assert (Zdigits2 a = Zdigits2 b) as Heq by lia. rewrite Heq in Hma.
  assert (0 < 2 ^ (24 - Zdigits2 b)) by (apply Z.pow_pos_nonneg; lia).
  destruct (Pos.compare_spec ma mb); [nia|done|nia].
Qed.

(** X3: with at most [2^24] rows the identifiers strictly increase along the
    rows, in the comparison of [float32], so no two rows share one. *)
Theorem atom_ids_increase rng count :
  0 <= count <= 2 ^ 24 →
  ∃ df ids,
    generate_atoms rng count = Ok df ∧
    get_column (columns df) "atom-id" = Some ids ∧
    (∀ i j x y, ids !! i = Some x → ids !! j = Some y → (i < j)%nat →
                SFltb x y = true) ∧
    NoDup ids.
Proof.
  intros Hc. assert (0 <= count) as Hc0 by lia.
  pose proof (generate_atoms_closed rng count Hc0) as Hg. cbv zeta in Hg.
  eexists _, (atom_id <$> seq 0 (Z.to_nat count)).
  split; [exact Hg|]. split; [done|].
  assert (∀ i j x y,
            (atom_id <$> seq 0 (Z.to_nat count)) !! i = Some x →
            (atom_id <$> seq 0 (Z.to_nat count)) !! j = Some y →
            (i < j)%nat → SFltb x y = true) as Hinc.
  { intros i j x y Hi Hj Hij.
    rewrite list_lookup_fmap in Hi, Hj.
    destruct (seq 0 (Z.to_nat count) !! i) as [i'|] eqn:Ei; [|done].
    destruct (seq 0 (Z.to_nat count) !! j) as [j'|] eqn:Ej; [|done].
    apply lookup_seq in Ei as [-> Hi'], Ej as [-> Hj'].
    simpl in Hi, Hj. injection Hi as <-. injection Hj as <-.
    unfold atom_id. rewrite !wrap64_small by lia. apply F32_of_Z_lt; lia. }
  split; [done|].
  apply NoDup_alt. intros i j x Hi Hj.
  destruct (Nat.lt_trichotomy i j) as [Hlt|[->|Hlt]]; [|done|].
  - pose proof (Hinc i j x x Hi Hj Hlt) as H.
    unfold SFltb in H. destruct x as [[]|[]| |[] m e]; simpl in H; try done;
      rewrite Z.compare_refl, Pos.compare_cont_refl in H; done.
  - pose proof (Hinc j i x x Hj Hi Hlt) as H.
    unfold SFltb in H. destruct x as [[]|[]| |[] m e]; simpl in H; try done;
      rewrite Z.compare_refl, Pos.compare_cont_refl in H; done.
Qed.

Lemma atom_ids_increase_witness :
  ∃ df ids,
    generate_atoms rng1 1200 = Ok df ∧
    get_column (columns df) "atom-id" = Some ids ∧
    (∀ i j x y, ids !! i = Some x → ids !! j = Some y → (i < j)%nat →
                SFltb x y = true) ∧
    NoDup ids.
Proof. apply (atom_ids_increase rng1 1200). lia. Defined.




(** X5: for every count >= 0 the ['atom-type'] column is a run of 2, then a
    run of 1, then a run of 3; the run of 3 has [min 100 count] rows and the
    run of 2 what is left of the first 100 rows. *)
Theorem atom_type_layout rng count :
  0 <= count →
  let n3 := Z.min 100 count in
  let n2 := Z.min 100 (count - n3) in
  let n1 := count - n3 - n2 in
  ∃ df,
    generate_atoms rng count = Ok df ∧
    get_column (columns df) "atom-type" =
      Some (replicate (Z.to_nat n2) (F32.of_Z 2) ++
            replicate (Z.to_nat n1) (F32.of_Z 1) ++
            replicate (Z.to_nat n3) (F32.of_Z 3)).
Proof.
  intros Hc n3 n2 n1.
  pose proof (generate_atoms_closed rng count Hc) as Hg. cbv zeta in Hg.
  eexists. split; [exact Hg|]. cbn [columns get_column]. simpl. f_equal.
  apply list_eq. intros i.
  destruct (decide (i < Z.to_nat count)%nat) as [Hi|Hi].
  - rewrite lookup_tabulated_column by done. symmetry.
    unfold atom_type.
    destruct (decide (i < Z.to_nat n2)%nat) as [H2|H2].
    { rewrite lookup_app_l by (rewrite length_replicate; lia).
      rewrite lookup_replicate_2 by done. f_equal.
      split_cmp; cbn [andb]; try done; exfalso; lia. }
    rewrite lookup_app_r by (rewrite length_replicate; lia).
    rewrite length_replicate.
    destruct (decide (i - Z.to_nat n2 < Z.to_nat n1)%nat) as [H1|H1].
    { rewrite lookup_app_l by (rewrite length_replicate; lia).
      rewrite lookup_replicate_2 by done. f_equal.
      split_cmp; cbn [andb]; try done; exfalso; lia. }
    rewrite lookup_app_r by (rewrite length_replicate; lia).
    rewrite length_replicate.
    rewrite lookup_replicate_2 by lia. f_equal.
    split_cmp; cbn [andb]; try done; exfalso; lia.
  - rewrite list_lookup_fmap, lookup_seq_ge by lia. symmetry.
    apply lookup_ge_None. rewrite !length_app, !length_replicate. lia.
Qed.

Lemma atom_type_layout_witness :
  let n3 := Z.min 100 150 in
  let n2 := Z.min 100 (150 - n3) in
  let n1 := 150 - n3 - n2 in
  ∃ df,
    generate_atoms rng1 150 = Ok df ∧
    get_column (columns df) "atom-type" =
      Some (replicate (Z.to_nat n2) (F32.of_Z 2) ++
            replicate (Z.to_nat n1) (F32.of_Z 1) ++
            replicate (Z.to_nat n3) (F32.of_Z 3)).
Proof. apply (atom_type_layout rng1 150). lia. Defined.

(** X6: with at most [2^24] rows no cell of the frame is a NaN or an
    infinity. *)
Theorem generated_cells_finite rng count :
  (∀ n, 0 <= rng n < 2 ^ 53) → 0 <= count <= 2 ^ 24 →
  ∃ df,
    generate_atoms rng count = Ok df ∧
    ∀ name col x, get_column (columns df) name = Some col → x ∈ col →
                  is_finite x = true.
Proof.
  intros Hrng Hc. assert (0 <= count) as Hc0 by lia.
  pose proof (generate_atoms_closed rng count Hc0) as Hg. cbv zeta in Hg.
  eexists. split; [exact Hg|]. intros name col x Hcol Hx.
  cbn [columns get_column fst snd] in Hcol.
  repeat case_decide; try done; injection Hcol as <-;
    apply list_elem_of_fmap in Hx as (i & -> & Hi);
    apply list_elem_of_lookup in Hi as [k Hk]; apply lookup_seq in Hk as [-> Hk].
  - apply atom_id_holds. lia.
  - unfold atom_type. by repeat destruct (_ && _).
  - unfold atom_type. by repeat destruct (_ && _).
  - by apply (bounded_by_F2Q 360); [lia|apply coordinate_at_bound].
  - by apply (bounded_by_F2Q 360); [lia|apply coordinate_at_bound].
  - by apply (bounded_by_F2Q 360); [lia|apply coordinate_at_bound].
Qed.

Lemma generated_cells_finite_witness :
  ∃ df,
    generate_atoms rng1 1200 = Ok df ∧
    ∀ name col x, get_column (columns df) name = Some col → x ∈ col →
                  is_finite x = true.
Proof. apply (generated_cells_finite rng1 1200); [apply rng1_range|lia]. Defined.

(** X12: the three label columns of [atoms] and the three placeholder
    tables are the same for every stream of draws; a negative size fails for
    every stream alike. *)
Theorem labels_do_not_depend_on_draws rng rng' size :
  (λ t, (get_column (columns (atoms t)) "atom-id",
         get_column (columns (atoms t)) "atom-type",
         get_column (columns (atoms t)) "mol-type",
         bonds t, angles t, dihedrals t)) <$> generate rng size =
  (λ t, (get_column (columns (atoms t)) "atom-id",
         get_column (columns (atoms t)) "atom-type",
         get_column (columns (atoms t)) "mol-type",
         bonds t, angles t, dihedrals t)) <$> generate rng' size.
Proof.
  destruct (Z.lt_ge_cases size 0) as [Hneg|Hpos].
  - unfold generate, np_random_rand. by destruct (Z.ltb_spec size 0); [|lia].
  - by rewrite !generate_closed.
Qed.

(** * The maxima the notebook asks for *)

(** X7: on a generated table with at least one row, the maxima of the three
    coordinate columns are three numbers (none is missing), each of them
    finite and in [[0, 360]]. *)
Theorem maxes_within_360 rng size :
  (∀ n, 0 <= rng n < 2 ^ 53) → 1 <= size →
  ∃ t x y z,
    generate rng size = Ok t ∧
    maxes t = Ok [Some x; Some y; Some z] ∧
    Forall (λ M, is_finite M = true ∧ (0 <= F2Q M <= 360)%Q) [x; y; z].
Proof.
  intros Hrng Hs.
  assert (∀ j, ∃ M,
            aggregate f32_max (coordinate_at rng j <$> seq 0 (Z.to_nat size)) = Some M ∧
            is_finite M = true ∧ (0 <= F2Q M <= 360)%Q) as Hagg.
  { intros j.
    assert (Forall (λ y, is_nan y = false)
              (coordinate_at rng j <$> seq 0 (Z.to_nat size))) as Hnum.
    { apply Forall_fmap, Forall_forall. intros i _. simpl.
      pose proof (coordinate_at_bound rng j i Hrng) as Hb.
      by destruct (coordinate_at rng j i). }
    pose proof (aggregate_max _ Hnum) as Hmax.
    assert (coordinate_at rng j 0 ∈ coordinate_at rng j <$> seq 0 (Z.to_nat size)) as H0.
    { apply list_elem_of_fmap. exists 0%nat. split; [done|].
      apply list_elem_of_lookup. exists 0%nat. apply lookup_seq. lia. }
    destruct (aggregate f32_max _) as [M|]; [|by rewrite Hmax in H0; apply elem_of_nil in H0].
    destruct Hmax as [HM _]. exists M. split; [done|].
    apply list_elem_of_fmap in HM as (i & -> & _).
    by apply (bounded_by_F2Q 360); [lia|apply coordinate_at_bound]. }
  destruct (Hagg 3%nat) as (x & Hx & Hxb).
  destruct (Hagg 4%nat) as (y & Hy & Hyb).
  destruct (Hagg 5%nat) as (z & Hz & Hzb).
  eexists _, x, y, z. split; [apply generate_closed; lia|].
  split; [|by repeat apply Forall_cons_2; try apply Forall_nil_2].
  unfold maxes, column_max, select. cbn [atoms].
  cbn [coordinate_columns select_columns columns get_column fst snd].
  simpl. by rewrite Hx, Hy, Hz.
Qed.

Lemma maxes_within_360_witness :
  ∃ t x y z,
    generate rng1 1200 = Ok t ∧
    maxes t = Ok [Some x; Some y; Some z] ∧
    Forall (λ M, is_finite M = true ∧ (0 <= F2Q M <= 360)%Q) [x; y; z].
Proof. apply (maxes_within_360 rng1 1200); [apply rng1_range|lia]. Defined.

(** X8: on a generated table with at least one row, the maxima and the
    minima of the three coordinate columns unpack into three values each,
    every minimum is at most the maximum of its column, and is not negative. *)
Theorem mins_below_maxes rng size :
  (∀ n, 0 <= rng n < 2 ^ 53) → 1 <= size →
  ∃ t x y z x' y' z',
    generate rng size = Ok t ∧
    (maxes t ≫= unpack3) = Ok (Some x, Some y, Some z) ∧
    (mins t ≫= unpack3) = Ok (Some x', Some y', Some z') ∧
    F32.leb x' x = true ∧ F32.leb y' y = true ∧ F32.leb z' z = true ∧
    (0 <= F2Q x')%Q ∧ (0 <= F2Q y')%Q ∧ (0 <= F2Q z')%Q.
Proof.
  intros Hrng Hs.
  assert (∀ j, Forall (λ y, is_nan y = false)
                 (coordinate_at rng j <$> seq 0 (Z.to_nat size))) as Hnum.
  { intros j. apply Forall_fmap, Forall_forall. intros i _. simpl.
    pose proof (coordinate_at_bound rng j i Hrng) as Hb.
    by destruct (coordinate_at rng j i). }
  assert (∀ j, ∃ M m,
            aggregate f32_max (coordinate_at rng j <$> seq 0 (Z.to_nat size)) = Some M ∧
            aggregate f32_min (coordinate_at rng j <$> seq 0 (Z.to_nat size)) = Some m ∧
            F32.leb m M = true ∧ (0 <= F2Q m)%Q) as Hagg.
  { intros j. pose proof (aggregate_max _ (Hnum j)) as Hmax.
    pose proof (aggregate_min _ (Hnum j)) as Hmin.
    assert (coordinate_at rng j 0 ∈ coordinate_at rng j <$> seq 0 (Z.to_nat size)) as H0.
    { apply list_elem_of_fmap. exists 0%nat. split; [done|].
      apply list_elem_of_lookup. exists 0%nat. apply lookup_seq. lia. }
    destruct (aggregate f32_max _) as [M|]; [|by rewrite Hmax in H0; apply elem_of_nil in H0].
    destruct (aggregate f32_min _) as [m|]; [|by rewrite Hmin in H0; apply elem_of_nil in H0].
    destruct Hmax as [_ HM], Hmin as [Hm Hm'].
    exists M, m. split; [done|]. split; [done|]. split.
    - apply (SFleb_trans m (coordinate_at rng j 0) M); [|by apply Hm'|by apply HM].
      pose proof (coordinate_at_bound rng j 0 Hrng) as Hb.
      by destruct (coordinate_at rng j 0).
    - apply list_elem_of_fmap in Hm as (i & -> & _).
      by apply (bounded_by_F2Q 360); [lia|apply coordinate_at_bound]. }
  destruct (Hagg 3%nat) as (x & x' & Hx & Hx' & Hxx & Hx0).
  destruct (Hagg 4%nat) as (y & y' & Hy & Hy' & Hyy & Hy0).
  destruct (Hagg 5%nat) as (z & z' & Hz & Hz' & Hzz & Hz0).
  eexists _, x, y, z, x', y', z'. split; [apply generate_closed; lia|].
  unfold maxes, mins, column_max, column_min, select. cbn [atoms].
  cbn [coordinate_columns select_columns columns get_column fst snd].
  simpl. rewrite Hx, Hy, Hz, Hx', Hy', Hz'. done.
Qed.

Lemma mins_below_maxes_witness :
  ∃ t x y z x' y' z',
    generate rng1 1200 = Ok t ∧
    (maxes t ≫= unpack3) = Ok (Some x, Some y, Some z) ∧
    (mins t ≫= unpack3) = Ok (Some x', Some y', Some z') ∧
    F32.leb x' x = true ∧ F32.leb y' y = true ∧ F32.leb z' z = true ∧
    (0 <= F2Q x')%Q ∧ (0 <= F2Q y')%Q ∧ (0 <= F2Q z')%Q.
Proof. apply (mins_below_maxes rng1 1200); [apply rng1_range|lia]. Defined.

(** * Assignments on arbitrary arrays *)

Lemma cell_update_col {A} (f : nat → option A) j (l : list (list A)) ncol i j' :
  cell (NdArray ncol (update_col f j l)) i j' =
  match f i with
  | Some v =>
      if decide (j' = j ∧ is_Some (cell (NdArray ncol l) i j)) then Some v
      else cell (NdArray ncol l) i j'
  | None => cell (NdArray ncol l) i j'
  end.
Proof.
  unfold cell, update_col. simpl. rewrite list_lookup_imap.
  destruct (l !! i) as [r|]; simpl; [|by destruct (f i); [case_decide|]; try done;
    destruct H as [_ []]; done].
  destruct (f i) as [v|]; [|done]. rewrite list_lookup_insert.
  repeat case_decide; try done.
  - exfalso. apply H0. destruct H as [-> Hlt]. split; [done|].
    by apply lookup_lt_is_Some.
  - exfalso. apply H. destruct H0 as [-> Hs]. split; [done|].
    by apply lookup_lt_is_Some.
Qed.

Lemma shape_update_col {A} (f : nat → option A) j (a : ndarray A) :
  shape (NdArray (ncols a) (update_col f j (rows a))) = shape a.
Proof. unfold shape, len, update_col. simpl. by rewrite length_imap. Qed.

Lemma slice_indices_clipped s n :
  0 <= n → 0 <= (slice_indices s n).1 <= n ∧ 0 <= (slice_indices s n).2 <= n.
Proof.
  intros Hn. unfold slice_indices, adjust_index.
  destruct s as [[st|] [sp|]]; simpl; split_cmp; lia.
Qed.

(** X9: [a[s, j] = v] raises IndexError exactly when [j] is not a column;
    otherwise it keeps the shape, clips the slice to the rows of the array and
    writes [v] in column [j] of the rows of the slice, and nowhere else. *)
Theorem setitem_scalar_frame {A} (a : ndarray A) (s : slice) (j : nat) (v : A) :
  match setitem_scalar a s j v with
  | Ok a' =>
      (j < ncols a)%nat ∧ shape a' = shape a ∧
      0 <= (slice_indices s (len a)).1 <= len a ∧
      0 <= (slice_indices s (len a)).2 <= len a ∧
      ∀ i j',
        cell a' i j' =
          if decide (j' = j ∧ is_Some (cell a i j) ∧
                     (slice_indices s (len a)).1 <= Z.of_nat i < (slice_indices s (len a)).2)
          then Some v else cell a i j'
  | Raise e => e = IndexError ∧ (ncols a <= j)%nat
  end.
Proof.
  unfold setitem_scalar. case_decide as Hj; [|split; [done|lia]].
  assert (0 <= len a) as Hlen by (unfold len; lia).
  destruct (slice_indices_clipped s (len a) Hlen) as [Hlo Hhi].
  destruct (slice_indices s (len a)) as [lo hi]. simpl in *.
  split; [done|]. split; [apply shape_update_col|]. split; [done|]. split; [done|].
  intros i j'. rewrite cell_update_col.
  destruct (Z.leb_spec lo (Z.of_nat i)), (Z.ltb_spec (Z.of_nat i) hi); cbn [andb];
    repeat case_decide; try done; exfalso; intuition lia.
Qed.

(** X10: [a[s, j] = vals] raises IndexError when [j] is not a column and
    ValueError when the length of [vals] is neither that of the slice nor 1;
    otherwise it keeps the shape and every other column. *)
Theorem setitem_array_frame {A} (a : ndarray A) (s : slice) (j : nat) (vals : list A) :
  match setitem_array a s j vals with
  | Ok a' =>
      (j < ncols a)%nat ∧
      (Z.of_nat (length vals) = slice_length s (len a) ∨ length vals = 1%nat) ∧
      shape a' = shape a ∧
      ∀ i j', j' ≠ j → cell a' i j' = cell a i j'
  | Raise IndexError => (ncols a <= j)%nat
  | Raise ValueError =>
      (j < ncols a)%nat ∧ Z.of_nat (length vals) ≠ slice_length s (len a) ∧
      length vals ≠ 1%nat
  | Raise _ => False
  end.
Proof.
  unfold setitem_array. case_decide as Hj; [|lia].
  destruct (slice_indices s (len a)) as [lo hi].
  destruct (Z.eqb_spec (Z.of_nat (length vals)) (slice_length s (len a))) as [E|E];
    destruct (Nat.eqb_spec (length vals) 1) as [E1|E1]; cbn [orb];
    try (split; [done|]; split; [by (left + right)|]; split; [apply shape_update_col|];
         intros i j' Hne; rewrite cell_update_col;
         destruct (_ && _); [|done]; destruct (vals !! _); [|done];
         by rewrite decide_False by (intros [? _]; done)).
  done.
Qed.

(** * Frames and arrays *)

Lemma well_formed_tabulate (a : ndarray spec_float) :
  well_formed a →
  a = tabulate (length (rows a)) (ncols a) (λ i j, default S754_nan (cell a i j)).
Proof.
  destruct a as [w l]. unfold well_formed, tabulate, cell. simpl. intros Hwf.
  f_equal. apply list_eq. intros i. rewrite list_lookup_fmap.
  destruct (l !! i) as [r|] eqn:Hr.
  - pose proof (lookup_lt_Some _ _ _ Hr) as Hi.
    rewrite (lookup_seq_lt 0 _ i Hi). simpl. f_equal.
    pose proof (Forall_lookup_1 _ _ _ _ Hwf Hr) as Hlen. simpl in Hlen.
    apply list_eq. intros j. rewrite list_lookup_fmap.
    destruct (decide (j < w)%nat) as [Hj|Hj].
    + rewrite (lookup_seq_lt 0 _ j Hj). simpl.
      assert (j < length r)%nat as Hjr by lia.
      destruct (lookup_lt_is_Some_2 r j Hjr) as [x Hx]. rewrite Hr. simpl. by rewrite Hx.
    + rewrite lookup_seq_ge by lia. simpl. apply lookup_ge_None. lia.
  - rewrite lookup_seq_ge; [done|]. apply lookup_ge_None in Hr. lia.
Qed.

Lemma round_trip_tabulate n w (g : nat → nat → spec_float) schema :
  length schema = w → NoDup schema → (0 < w)%nat →
  ∃ df, pl_DataFrame (tabulate n w g) schema = Ok df ∧
        (columns df).*1 = schema ∧
        df_shape df = shape (tabulate n w g) ∧
        to_numpy df = tabulate n w g.
Proof.
  intros Hlen Hnd Hw. unfold pl_DataFrame.
  change (ncols (tabulate n w g)) with w. rewrite !decide_True by done.
  rewrite getitem_cols_tabulate
    by (apply Forall_forall; intros j Hj; apply elem_of_seq in Hj; lia).
  rewrite bind_Ok. eexists. split; [done|].
  set (cols := (λ j, (λ i, g i j) <$> seq 0 n) <$> seq 0 w).
  assert (length cols = w) as Hcols by (unfold cols; by rewrite length_fmap, length_seq).
  assert (height {| columns := zip schema cols |} = Z.of_nat n) as Hh.
  { unfold height, cols. destruct schema as [|s0 schema]; [simpl in *; lia|].
    destruct w as [|w']; [lia|]. simpl. by rewrite length_fmap, length_seq. }
  split; [|split].
  - simpl. apply fst_zip. lia.
  - unfold df_shape, width. rewrite Hh, shape_tabulate. simpl.
    rewrite length_zip_with. f_equal. lia.
  - unfold to_numpy. rewrite Hh, Nat2Z.id. unfold tabulate. simpl.
    rewrite length_zip_with, Hlen, Hcols, Nat.min_id. f_equal.
    apply list_fmap_ext. intros k i Hi. apply lookup_seq in Hi as [Hik Hi].
    simpl in Hik. subst i.
    trans ((λ c : list spec_float, default S754_nan (c !! k)) <$> (zip schema cols).*2);
      [by rewrite <- list_fmap_compose|].
    rewrite snd_zip by lia. unfold cols. rewrite <- list_fmap_compose.
    apply list_fmap_ext. intros k' j Hj. simpl.
    by rewrite lookup_tabulated_column by done.
Qed.

(** X11: an array with at least one column, whose rows are all of its
    width, is wrapped in a frame under as many names as it has columns.  If a
    name occurs twice the call raises DuplicateError; otherwise the frame has
    these names in order and the shape of the array, and [to_numpy] gives the
    array back. *)
Theorem DataFrame_round_trip (a : ndarray spec_float) (schema : list string) :
  well_formed a → (0 < ncols a)%nat → length schema = ncols a →
  match pl_DataFrame a schema with
  | Ok df =>
      NoDup schema ∧ (columns df).*1 = schema ∧
      df_shape df = shape a ∧ to_numpy df = a
  | Raise e => e = DuplicateError ∧ ¬ NoDup schema
  end.
Proof.
  intros Hwf Hw Hlen. destruct (decide (NoDup schema)) as [Hnd|Hnd].
  - destruct (round_trip_tabulate (length (rows a)) (ncols a)
                (λ i j, default S754_nan (cell a i j)) schema Hlen Hnd Hw)
      as (df & Hdf & H1 & H2 & H3).
    rewrite <- (well_formed_tabulate a Hwf) in Hdf, H2, H3. by rewrite Hdf.
  - unfold pl_DataFrame. by rewrite decide_True, decide_False.
Qed.

Lemma DataFrame_round_trip_witness :
  match pl_DataFrame sample_array ["a"; "b"]%string with
  | Ok df =>
      NoDup ["a"; "b"]%string ∧ (columns df).*1 = ["a"; "b"]%string ∧
      df_shape df = shape sample_array ∧ to_numpy df = sample_array
  | Raise e => e = DuplicateError ∧ ¬ NoDup ["a"; "b"]%string
  end.
Proof.
  apply (DataFrame_round_trip sample_array ["a"; "b"]%string).
  - repeat constructor.
  - simpl. lia.
  - reflexivity.
Defined.

Lemma well_formed_tabulated {A} n w (g : nat → nat → A) : well_formed (tabulate n w g).
Proof.
  unfold well_formed, tabulate. simpl. apply Forall_fmap, Forall_forall. intros i _.
  simpl. by rewrite length_fmap, length_seq.
Qed.

Lemma cell_tabulate_out {A} n w (g : nat → nat → A) i j :
  (n <= i)%nat ∨ (w <= j)%nat → cell (tabulate n w g) i j = None.
Proof.
  intros Hout. unfold cell, tabulate. simpl. rewrite list_lookup_fmap.
  destruct (decide (i < n)%nat) as [Hi|Hi].
  - rewrite (lookup_seq_lt 0 n i Hi). simpl. rewrite list_lookup_fmap.
    rewrite lookup_seq_ge by lia. done.
  - by rewrite lookup_seq_ge by lia.
Qed.

(** X13: [a[:, j2] = a[:, j1]] on an array whose rows are all of its width:
    both steps succeed, the shape is kept, column [j2] becomes column [j1] and
    every other column is kept. *)
Theorem copy_column (a : ndarray spec_float) (j1 j2 : nat) :
  well_formed a → (j1 < ncols a)%nat → (j2 < ncols a)%nat →
  ∃ c a',
    getitem_col a j1 = Ok c ∧ setitem_array a slice_all j2 c = Ok a' ∧
    Z.of_nat (length c) = len a ∧ shape a' = shape a ∧ well_formed a' ∧
    ∀ i j, cell a' i j = cell a i (if decide (j = j2) then j1 else j).
Proof.
  intros Hwf H1 H2. rewrite (well_formed_tabulate a Hwf).
  set (n := length (rows a)). set (w := ncols a) in *.
  set (g := λ i j, default S754_nan (cell a i j)).
  change (ncols (tabulate n w g)) with w in *.
  eexists _, _. split; [by apply getitem_col_tabulate|].
  split; [by apply setitem_array_all_tabulate|].
  split; [by rewrite length_fmap, length_seq, len_tabulate|].
  split; [by rewrite !shape_tabulate|]. split; [apply well_formed_tabulated|].
  intros i j. destruct (decide (i < n ∧ j < w)%nat) as [[Hi Hj]|Hout].
  - rewrite cell_tabulate by done. case_decide; by rewrite cell_tabulate.
  - rewrite cell_tabulate_out by lia. symmetry. apply cell_tabulate_out.
    case_decide; subst; lia.
Qed.

Lemma copy_column_witness :
  ∃ c a',
    getitem_col sample_array 0 = Ok c ∧ setitem_array sample_array slice_all 1 c = Ok a' ∧
    Z.of_nat (length c) = len sample_array ∧ shape a' = shape sample_array ∧
    well_formed a' ∧
    ∀ i j, cell a' i j = cell sample_array i (if decide (j = 1%nat) then 0%nat else j).
Proof.
  apply (copy_column sample_array 0 1).
  - repeat constructor.
  - simpl. lia.
  - simpl. lia.
Defined.

(** X1: the second cell succeeds exactly for a size >= 0 and raises ValueError
    for a negative one; on success the frame and its array have shape
    [(size, 6)], the placeholder tables [(size, 4)], [(size, 5)] and
    [(size, 6)], and each row of these has the width of its table. *)
Theorem generate_domain rng size :
  match generate rng size with
  | Ok t =>
      0 <= size ∧
      df_shape (atoms t) = (size, 6) ∧ shape (to_numpy (atoms t)) = (size, 6) ∧
      shape (bonds t) = (size, 4) ∧ shape (angles t) = (size, 5) ∧
      shape (dihedrals t) = (size, 6) ∧
      well_formed (bonds t) ∧ well_formed (angles t) ∧ well_formed (dihedrals t)
  | Raise e => size < 0 ∧ e = ValueError
  end.
Proof.
  destruct (Z.lt_ge_cases size 0) as [Hneg|Hpos].
  - unfold generate, np_random_rand. by destruct (Z.ltb_spec size 0); [|lia].
  - rewrite generate_closed by done. cbn [atoms bonds angles dihedrals].
    rewrite !shape_tabulate, Z2Nat.id by done.
    assert (∀ cols, height {| columns := ("atom-id"%string, atom_id <$> seq 0 (Z.to_nat size)) :: cols |}
                    = size) as Hh.
    { intros cols. unfold height. simpl. rewrite length_fmap, length_seq. lia. }
    repeat split; try done; try apply well_formed_tabulated.
    + unfold df_shape, width. by rewrite Hh.
    + unfold to_numpy, shape, len. rewrite Hh. simpl.
      rewrite length_fmap, length_seq. f_equal. lia.
Qed.
